(** * wayland-conf: the waybar todo helper (todo-scripts/todo.py)

    A shallow embedding of the task state, its ordering, the time-based
    rotation, the mutations and the state store of [todo.py], and the
    properties of the specification stated over them.

    Modelling conventions.
    - A task is a Python dict read with [.get]; every field may be absent, so
      a task is a record of optional fields.  When present a field has the
      type the program writes into it ([priority] an integer, [done] a
      boolean, the others strings).
    - The state is a dict with the optional fields [tasks] and [show_index].
    - A Python [str] is a [string]; its characters are code points below
      256, compared by code point as Python does.
    - [time.time()] is a rational number of seconds.
    - The functions that mutate their argument in place return the new value
      next to their result. *)

From Stdlib Require Import ZArith QArith Qround List Bool Lia.
From Stdlib Require Import Sorting.Sorted Sorting.Permutation.
From Stdlib Require Import Strings.String Strings.Ascii DecimalString.
From stdpp Require Import base option list gmap strings.

Local Open Scope Z_scope.
Local Open Scope string_scope.

(** ** Data model *)

Record Task := mkTask {
  task_id  : option string;
  title    : option string;
  priority : option Z;
  done     : option bool;
  created  : option string
}.

Record State := mkState {
  tasks      : option (list Task);
  show_index : option Z
}.

(** [d.get(k, dflt)] on an optional field. *)
Definition dict_get {A} (field : option A) (dflt : A) : A :=
  match field with
  | Some v => v
  | None => dflt
  end.

(** Truth value of [t.get("done")]: an absent field reads [None], which is
    false. *)
Definition truthy (field : option bool) : bool := dict_get field false.

(** Truth value of a [str]: the empty string is false. *)
Definition str_truthy (s : string) : bool :=
  match s with
  | EmptyString => false
  | String _ _ => true
  end.

(** [state.get("tasks", [])] *)
Definition state_tasks (state : State) : list Task := dict_get (tasks state) [].

(** ** Python primitives used by the program *)

(** [str.isspace] on the code points below 256. *)
Definition is_space (c : ascii) : bool :=
  let n := N_of_ascii c in
  ((9 <=? n) && (n <=? 13) || (28 <=? n) && (n <=? 32)
   || (n =? 133) || (n =? 160))%N.

Fixpoint lstrip (s : string) : string :=
  match s with
  | EmptyString => EmptyString
  | String c r => if is_space c then lstrip r else s
  end.

Fixpoint rstrip (s : string) : string :=
  match s with
  | EmptyString => EmptyString
  | String c r =>
      match rstrip r with
      | EmptyString => if is_space c then EmptyString else String c EmptyString
      | r' => String c r'
      end
  end.

(** [s.strip()] *)
Definition strip (s : string) : string := rstrip (lstrip s).

(** [a < b] on [str]: lexicographic on code points. *)
Definition str_ltb (a b : string) : bool := String.ltb a b.

(** [max(1, min(priority, 5))] *)
Definition clamp_priority (p : Z) : Z := Z.max 1 (Z.min p 5).

(** [int(x)] on a float: truncation toward zero. *)
Definition py_int (x : Q) : Z := Z.quot (Qnum x) (Zpos (Qden x)).

(** ** Ordering ([sorted_tasks]) *)

Definition Key : Type := Z * string * string.

(** The key of the [lambda] given to [sorted]. *)
Definition sort_key (t : Task) : Key :=
  (dict_get (priority t) 3, dict_get (created t) "", dict_get (title t) "").

(** [k1 < k2] on tuples, as Python evaluates it: the first position where
    the tuples differ decides. *)
Definition key_ltb (k1 k2 : Key) : bool :=
  let '(p1, c1, t1) := k1 in
  let '(p2, c2, t2) := k2 in
  if negb (p1 =? p2)%Z then (p1 <? p2)%Z
  else if negb (String.eqb c1 c2) then str_ltb c1 c2
  else str_ltb t1 t2.

Definition task_ltb (a b : Task) : bool := key_ltb (sort_key a) (sort_key b).

(** [sorted] is a stable sort that compares with [<] only.  The stable
    arrangement of a list is unique, so it is given here by insertion: an
    element goes in front of the first element that is not smaller. *)
Section StableSort.
Context {A : Type} (ltb : A -> A -> bool).

Fixpoint insert_stable (x : A) (l : list A) : list A :=
  match l with
  | [] => [x]
  | y :: r => if ltb y x then y :: insert_stable x r else x :: y :: r
  end.

Fixpoint sorted (l : list A) : list A :=
  match l with
  | [] => []
  | x :: r => insert_stable x (sorted r)
  end.

(** [x] may stand before [y]: [y < x] is false. *)
Definition not_after (x y : A) : Prop := ltb y x = false.

End StableSort.

Definition sorted_tasks (ts : list Task) : list Task := sorted task_ltb ts.

(** The order of the specification, in its words: ascending, lexicographic
    over (priority, created, title); priority dominates, creation time
    breaks priority ties, title breaks the remaining ties. *)
Definition str_lt (a b : string) : Prop := String.compare a b = Lt.

Definition str_le (a b : string) : Prop := str_lt a b \/ a = b.

Definition key_le (k1 k2 : Key) : Prop :=
  let '(p1, c1, t1) := k1 in
  let '(p2, c2, t2) := k2 in
  p1 < p2 \/ (p1 = p2 /\ (str_lt c1 c2 \/ (c1 = c2 /\ str_le t1 t2))).

Definition task_le (a b : Task) : Prop := key_le (sort_key a) (sort_key b).

(** The same order read off the fields of two tasks: [a] may stand before
    [b] when its priority is smaller; or the priorities are equal and its
    creation time is earlier; or these are equal too and its title is not
    later.  A missing priority counts as 3, a missing creation time or
    title as the empty string. *)
Definition task_order (a b : Task) : Prop :=
  let pa := dict_get (priority a) 3 in
  let pb := dict_get (priority b) 3 in
  let ca := dict_get (created a) "" in
  let cb := dict_get (created b) "" in
  let ta := dict_get (title a) "" in
  let tb := dict_get (title b) "" in
  pa < pb \/
  (pa = pb /\ (str_lt ca cb \/ (ca = cb /\ str_le ta tb))).

Definition pending_tasks (state : State) : list Task :=
  List.filter (fun t => negb (truthy (done t))) (state_tasks state).

Definition next_display_pool (state : State) : list Task :=
  let pool := sorted_tasks (pending_tasks state) in
  match pool with
  | _ :: _ => pool
  | [] => sorted_tasks (state_tasks state)
  end.

(** ** Display rotation *)

Definition ROTATION_INTERVAL : Z := 2.

(** [int(time.time() / ROTATION_INTERVAL)] *)
Definition rotation_index (now : Q) : Z :=
  py_int (now / inject_Z ROTATION_INTERVAL)%Q.

(** [get_display_task], with the clock reading as an argument.  The divisor
    of [%] is positive here, where Python's [%] and [Z.modulo] agree. *)
Definition get_display_task (state : State) (now : Q) : option Task :=
  let pool := sorted_tasks (pending_tasks state) in
  match pool with
  | [] => None
  | _ :: _ =>
      let idx := rotation_index now mod Z.of_nat (length pool) in
      pool !! Z.to_nat idx
  end.

Definition cycle_task (state : State) : State :=
  let pool := next_display_pool state in
  match pool with
  | [] => mkState (tasks state) (Some 0)
  | _ :: _ =>
      mkState (tasks state)
        (Some ((dict_get (show_index state) 0 + 1) mod Z.of_nat (length pool)))
  end.

Definition reset_cycle (state : State) : State :=
  mkState (tasks state) (Some 0).

(** ** Mutations *)

(** [task["done"] = not task.get("done")] *)
Definition flip_done (t : Task) : Task :=
  mkTask (task_id t) (title t) (priority t)
         (Some (negb (truthy (done t)))) (created t).

(** The loop of [toggle_task] over the task list: the first task whose id
    equals [tid] is changed in place, and the loop returns there. *)
Fixpoint toggle_loop (ts : list Task) (tid : string) : bool * list Task :=
  match ts with
  | [] => (false, [])
  | t :: r =>
      if bool_decide (task_id t = Some tid) then (true, flip_done t :: r)
      else let '(b, r') := toggle_loop r tid in (b, t :: r')
  end.

Definition toggle_task (state : State) (tid : string) : bool * State :=
  match tasks state with
  | None => (false, state)
  | Some ts =>
      let '(b, ts') := toggle_loop ts tid in
      (b, mkState (Some ts') (show_index state))
  end.

(** Truth value of a task: a dict is false when it has no key. *)
Definition task_truthy (t : Task) : bool :=
  match task_id t, title t, priority t, done t, created t with
  | None, None, None, None, None => false
  | _, _, _, _, _ => true
  end.

(** [if not task] holds for no task and for a task without any field.
    [task["id"]] raises [KeyError] on a task without an id: [None] here. *)
Definition toggle_current_display_task (state : State) (now : Q)
  : option (bool * State) :=
  match get_display_task state now with
  | None => Some (false, state)
  | Some t =>
      if negb (task_truthy t) then Some (false, state)
      else
        match task_id t with
        | Some tid => Some (toggle_task state tid)
        | None => None
        end
  end.

(** [add_task]; [uid] is the value of [uuid4().hex[:10]] and [now_iso] the
    value of [datetime.now().isoformat()] at the call.  The function returns
    nothing. *)
Definition add_task (state : State) (ttl : string) (prio : Z)
    (uid now_iso : string) : State :=
  mkState
    (Some (state_tasks state ++
           [mkTask (Some uid) (Some (strip ttl)) (Some (clamp_priority prio))
                   (Some false) (Some now_iso)])%list)
    (show_index state).

Definition clear_completed (state : State) : State :=
  mkState (Some (List.filter (fun t => negb (truthy (done t)))
                             (state_tasks state)))
          (show_index state).

(** [delete_task], local to [tui_loop]. *)
Definition delete_task (state : State) (tid : string) : bool * State :=
  let ts := state_tasks state in
  let ts' :=
    List.filter (fun t => negb (bool_decide (task_id t = Some tid))) ts in
  ((length ts' <? length ts)%nat, mkState (Some ts') (show_index state)).

(** *** The three callers of [add_task]

    Each returns the [changed] flag next to the state. *)

(** [main]: [elif args.action == "add" and args.title:]; [--title] may be
    absent. *)
Definition main_add (state : State) (arg_title : option string)
    (arg_priority : Z) (uid now_iso : string) : bool * State :=
  match arg_title with
  | Some ttl =>
      if str_truthy ttl
      then (true, add_task state ttl arg_priority uid now_iso)
      else (false, state)
  | None => (false, state)
  end.

(** [tui_loop], key [a]: the typed line is stripped, then tested. *)
Definition tui_add (state : State) (typed : string) (prio : Z)
    (uid now_iso : string) : bool * State :=
  let ttl := strip typed in
  if str_truthy ttl then (true, add_task state ttl prio uid now_iso)
  else (false, state).

(** [manage_menu], choice [[+]]: [prompt_input] strips what the launcher
    printed, or returns [None]. *)
Definition manage_menu_add (state : State) (printed : option string)
    (prio : Z) (uid now_iso : string) : bool * State :=
  match option_map strip printed with
  | Some ttl =>
      if str_truthy ttl then (true, add_task state ttl prio uid now_iso)
      else (false, state)
  | None => (false, state)
  end.

(** ** State store

    The file system is a set of directories and a finite map from paths to
    file contents; a path is a directory and a file name.  The operations of
    [pathlib] read and change it and may raise.  Failures of the device
    (permissions, full disk) are outside the model. *)

Definition Path : Type := string * string.

Record FS := mkFS {
  dirs  : gset string;
  files : gmap Path string
}.

Inductive exn : Type :=
  | FileNotFoundError
  | JSONDecodeError
  | ValueError.

(** A computation on the file system: the file system it leaves, and its
    value or the exception it raised. *)
Definition IO (A : Type) : Type := FS -> FS * (exn + A).

Definition io_ret {A} (a : A) : IO A := fun fs => (fs, inr a).

Definition io_raise {A} (e : exn) : IO A := fun fs => (fs, inl e).

Definition io_bind {A B} (m : IO A) (k : A -> IO B) : IO B :=
  fun fs =>
    match m fs with
    | (fs', inr a) => k a fs'
    | (fs', inl e) => (fs', inl e)
    end.

(** [try: m except Exception: h] *)
Definition try_except {A} (m : IO A) (h : IO A) : IO A :=
  fun fs =>
    match m fs with
    | (fs', inr a) => (fs', inr a)
    | (fs', inl _) => h fs'
    end.

Notation "x <- m ;; k" := (io_bind m (fun x => k))
  (at level 63, m at next level, right associativity).
Notation "m ;;; k" := (io_bind m (fun _ => k))
  (at level 63, right associativity).

(** [p.exists()] *)
Definition path_exists (p : Path) : IO bool :=
  fun fs => (fs, inr (bool_decide (is_Some (files fs !! p)))).

(** [p.read_text()] *)
Definition read_text (p : Path) : IO string :=
  fun fs =>
    match files fs !! p with
    | Some txt => (fs, inr txt)
    | None => (fs, inl FileNotFoundError)
    end.

(** [with p.open("w") as f: f.write(txt)] *)
Definition write_text (p : Path) (txt : string) : IO unit :=
  fun fs =>
    if bool_decide (p.1 ∈ dirs fs)
    then (mkFS (dirs fs) (<[p := txt]> (files fs)), inr tt)
    else (fs, inl FileNotFoundError).

(** [src.rename(dst)] and [src.replace(dst)]: an existing [dst] is
    replaced. *)
Definition rename (src dst : Path) : IO unit :=
  fun fs =>
    match files fs !! src with
    | Some txt =>
        (mkFS (dirs fs) (<[dst := txt]> (delete src (files fs))), inr tt)
    | None => (fs, inl FileNotFoundError)
    end.

(** [d.mkdir(parents=True, exist_ok=True)] on a path that is free or a
    directory.  A regular file in the place of [d] or of one of its parents
    makes the call raise; the file system here has no such path, its files
    lie in directories. *)
Definition mkdir (d : string) : IO unit :=
  fun fs => (mkFS ({[d]} ∪ dirs fs) (files fs), inr tt).

(** The last dot of a file name: what precedes it, and the rest from the
    dot on. *)
Fixpoint rpartition_dot (name : string) : option (string * string) :=
  match name with
  | EmptyString => None
  | String c r =>
      match rpartition_dot r with
      | Some (a, b) => Some (String c a, b)
      | None => if Ascii.eqb c "." then Some (EmptyString, name) else None
      end
  end.

(** [PurePath.suffix]: empty when the name has no dot, starts with its only
    dot or ends with a dot. *)
Definition suffix (p : Path) : string :=
  match rpartition_dot p.2 with
  | Some (String _ _, String _ (String _ _) as suf) => suf
  | _ => EmptyString
  end.

(** [PurePath.stem] *)
Definition stem (p : Path) : string :=
  match rpartition_dot p.2 with
  | Some (String _ _ as st, String _ (String _ _)) => st
  | _ => p.2
  end.

(** [p.with_suffix(suf)] *)
Definition with_suffix (p : Path) (suf : string) : Path :=
  (p.1, stem p ++ suf).

(** What [json.loads] returned, as far as [load_state] looks at it: a dict,
    read as a state, or another value. *)
Inductive Parsed : Type :=
  | ParsedDict (raw : State)
  | ParsedOther.

Section Store.
(** The home directory, the JSON codec and the two clock readings taken when
    the module is loaded. *)
Context (home : string).
Context (json_loads : string -> option Parsed).
Context (json_dumps : State -> string).
Context (created_quickstart created_manage : string).

Definition DATA_DIR : string := home ++ "/.local/share/waybar-todo".

Definition DATA_FILE : Path := (DATA_DIR, "tasks.json").

Definition DEFAULT_TASKS : list Task :=
  [ mkTask (Some "seed-quickstart") (Some "Part 6") (Some 1) (Some false)
           (Some created_quickstart);
    mkTask (Some "seed-manage") (Some "Right click to edit or add") (Some 3)
           (Some false) (Some created_manage) ].

Definition default_state : State := mkState (Some DEFAULT_TASKS) (Some 0).

Definition ensure_data_dir : IO unit := mkdir DATA_DIR.

Definition save_state (state : State) : IO unit :=
  ensure_data_dir ;;;
  let tmp_file := with_suffix DATA_FILE ".tmp" in
  write_text tmp_file (json_dumps state) ;;;
  rename tmp_file DATA_FILE.

(** [json.loads(text)], raising on text that is not JSON. *)
Definition loads (txt : string) : IO Parsed :=
  match json_loads txt with
  | Some v => io_ret v
  | None => io_raise JSONDecodeError
  end.

(** [raw.setdefault("tasks", []); raw.setdefault("show_index", 0)] *)
Definition setdefaults (raw : State) : State :=
  mkState (Some (dict_get (tasks raw) [])) (Some (dict_get (show_index raw) 0)).

Definition load_state : IO State :=
  ensure_data_dir ;;;
  present <- path_exists DATA_FILE ;;
  if negb present then
    let state := default_state in
    save_state state ;;;
    io_ret state
  else
    try_except
      (txt <- read_text DATA_FILE ;;
       raw <- loads txt ;;
       match raw with
       | ParsedOther => io_raise ValueError
       | ParsedDict d => io_ret (setdefaults d)
       end)
      (let backup := with_suffix DATA_FILE (suffix DATA_FILE ++ ".bak") in
       rename DATA_FILE backup ;;;
       let state := default_state in
       save_state state ;;;
       io_ret state).

End Store.

(** ** The launcher menu ([manage_menu])

    The launcher and the prompts are outside the program: what they return
    is an argument of the functions below. *)

(** [str(n)] on an integer. *)
Definition str_of_int (n : Z) : string := NilZero.string_of_int (Z.to_int n).

(** [s[:n]] *)
Definition str_take (n : nat) (s : string) : string := substring 0 n s.

(** [s.startswith(p)] *)
Definition startswith (s p : string) : bool := String.prefix p s.

(** [c in s], for a single character [c]. *)
Fixpoint str_contains (c : ascii) (s : string) : bool :=
  match s with
  | EmptyString => false
  | String a r => Ascii.eqb a c || str_contains c r
  end.

(** What follows the last [c] of [s], when [s] holds one. *)
Fixpoint after_last (c : ascii) (s : string) : option string :=
  match s with
  | EmptyString => None
  | String a r =>
      match after_last c r with
      | Some t => Some t
      | None => if Ascii.eqb a c then Some r else None
      end
  end.

(** [s.rsplit(c, 1)[-1]] *)
Definition rsplit_last (c : ascii) (s : string) : string :=
  match after_last c s with
  | Some t => t
  | None => s
  end.

Definition is_decimal (c : ascii) : bool :=
  let n := N_of_ascii c in ((48 <=? n) && (n <=? 57))%N.

(** [c.isdigit()] on the code points below 256: the decimal digits and the
    superscripts two, three and one. *)
Definition is_digit (c : ascii) : bool :=
  let n := N_of_ascii c in
  (is_decimal c || (n =? 178) || (n =? 179) || (n =? 185))%N.

Fixpoint all_chars (p : ascii -> bool) (s : string) : bool :=
  match s with
  | EmptyString => true
  | String c r => p c && all_chars p r
  end.

(** [s.isdigit()]: false on the empty string. *)
Definition str_isdigit (s : string) : bool :=
  str_truthy s && all_chars is_digit s.

Fixpoint digits_value (acc : Z) (s : string) : option Z :=
  match s with
  | EmptyString => Some acc
  | String c r =>
      if is_decimal c
      then digits_value (acc * 10 + Z.of_N (N_of_ascii c - 48)) r
      else None
  end.

(** [int(s)] on a string that [isdigit] accepts.  A superscript digit is a
    digit but no decimal numeral: [int] raises [ValueError] on it.  (The
    interpreter's bound on the number of digits is outside the model.) *)
Definition int_of_digits (s : string) : exn + Z :=
  match s with
  | EmptyString => inl ValueError
  | String _ _ =>
      match digits_value 0 s with
      | Some n => inr n
      | None => inl ValueError
      end
  end.

(** [run_menu] and [prompt_input] return what the launcher printed,
    stripped; [out] is none when there is no launcher, when it exits with an
    error, or at the end of the input. *)
Definition run_menu (out : option string) : option string :=
  option_map strip out.

Definition prompt_input (out : option string) : option string :=
  option_map strip out.

(** The line feed that ends a line of the launcher's output. *)
Definition newline : string := String (ascii_of_nat 10) EmptyString.

(** The line shown for a task. *)
Definition menu_option (task : Task) : string :=
  let mark := if truthy (done task) then "[x]" else "[ ]" in
  let pr := match priority task with
            | Some p => str_of_int p
            | None => "?"
            end in
  let short_id := str_take 6 (dict_get (task_id task) "") in
  mark ++ " P" ++ pr ++ " " ++ dict_get (title task) "" ++ "  #" ++ short_id.

Definition menu_options (state : State) : list string :=
  let options := List.map menu_option (sorted_tasks (state_tasks state)) in
  (match options with
   | [] => options
   | _ :: _ => options ++ ["---"]
   end ++ ["[+] Add task"; "[!] Clear completed"; "[0] Reset view"])%list.

(** [int(raw) if raw and raw.isdigit() else 3] *)
Definition menu_priority (raw_priority : option string) : exn + Z :=
  match raw_priority with
  | Some raw =>
      if str_truthy raw && str_isdigit raw then int_of_digits raw else inr 3
  | None => inr 3
  end.

(** [manage_menu]; [choice] is what [run_menu] returned, [ttl] and
    [raw_priority] what the two calls of [prompt_input] return.  The result
    is [None] when the function ends without a [return]. *)
Definition manage_menu (state : State) (choice ttl raw_priority : option string)
    (uid now_iso : string) : exn + (option bool * State) :=
  match choice with
  | None => inr (Some false, state)
  | Some choice =>
      if negb (str_truthy choice) then inr (Some false, state)
      else if startswith choice "[+]" then
        match ttl with
        | Some ttl =>
            if str_truthy ttl then
              match menu_priority raw_priority with
              | inr prio =>
                  inr (Some true, add_task state ttl prio uid now_iso)
              | inl e => inl e
              end
            else inr (Some false, state)
        | None => inr (Some false, state)
        end
      else if startswith choice "[!]" then
        inr (Some true, reset_cycle (clear_completed state))
      else if startswith choice "[0]" then
        inr (Some true, reset_cycle state)
      else if startswith choice "[" && str_contains "#" choice then
        let tid := strip (rsplit_last "#" choice) in
        let '(toggled, state') := toggle_task state tid in
        inr (Some toggled, if toggled then reset_cycle state' else state')
      else inr (None, state)
  end.

(** ** The terminal editor ([tui_loop])

    The editor is a loop over the keys pressed.  Drawing the screen changes
    nothing of the state and is left out.  What the user types at a prompt
    comes with the key, as [bytes.decode('utf-8')] returns it: the text, or
    nothing when the bytes are not UTF-8 and [decode] raises
    [UnicodeDecodeError].  The id and the time stamp an added task will get
    come with the key too. *)

Inductive tui_key : Type :=
  | KeyQuit
  | KeyDown
  | KeyUp
  | KeySpace
  | KeyDelete
  | KeyClear
  | KeyAdd (typed_title typed_priority : option string) (uid now_iso : string)
  | KeyEdit (typed_title typed_priority : option string)
  | KeyOther.

(** What a step of the loop can raise; [IntValueError] is the [ValueError]
    of [int]. *)
Inductive tui_error : Type :=
  | KeyError
  | IndexError
  | IntValueError
  | UnicodeDecodeError.

(** The variables of the loop. *)
Record Tui := mkTui {
  tui_state   : State;
  current_idx : Z;
  changed     : bool
}.

(** [l[i]]: a negative index counts from the end. *)
Definition py_index {A} (l : list A) (i : Z) : option A :=
  if (i <? 0)%Z then
    if (- i <=? Z.of_nat (length l))%Z
    then l !! Z.to_nat (Z.of_nat (length l) + i)
    else None
  else l !! Z.to_nat i.

(** The tasks in display order, each with its place in the stored list:
    the sorted list holds the stored task objects themselves, and a change
    made through it reaches the stored task at that place. *)
Definition sorted_entries (ts : list Task) : list (nat * Task) :=
  sorted (fun a b => task_ltb a.2 b.2) (combine (seq 0 (length ts)) ts).

(** Lines 336 to 339: the cursor is brought back into the list. *)
Definition adjust_cursor (len idx : Z) : Z :=
  let idx :=
    if (idx >=? len)%Z then Z.min (Z.max 0 (len - 1)) len else idx in
  if (idx <? 0)%Z then 0 else idx.

(** [int(prio_str) if prio_str.isdigit() else 3] *)
Definition tui_priority (prio_str : string) : tui_error + Z :=
  if str_isdigit prio_str then
    match int_of_digits prio_str with
    | inr n => inr n
    | inl _ => inl IntValueError
    end
  else inr 3.

Definition set_title (task : Task) (s : string) : Task :=
  mkTask (task_id task) (Some s) (priority task) (done task) (created task).

Definition set_priority (task : Task) (p : Z) : Task :=
  mkTask (task_id task) (title task) (Some p) (done task) (created task).

(** [int(prio_str) if prio_str.isdigit() else task.get('priority')] inside
    the second [try] block of the key [e], followed by [min(new_prio, 5)]:
    the number to clamp, or nothing when [int] raises on a superscript
    digit or [min] raises on a missing priority. *)
Definition edit_new_priority (task : Task) (prio_str : string) : option Z :=
  if str_isdigit prio_str then
    match int_of_digits prio_str with
    | inr n => Some n
    | inl _ => None
    end
  else priority task.

(** The two [try] blocks of the key [e] on the selected task.  An exception
    inside a block ([decode] on bytes that are not UTF-8, [int] on a
    superscript digit, [min] on a missing priority) ends that block and
    changes nothing. *)
Definition edit_task (task : Task) (typed_title typed_priority : option string)
  : Task * bool :=
  let '(task, ch) :=
    match typed_title with
    | Some typed =>
        let new_title := strip typed in
        if str_truthy new_title then (set_title task new_title, true)
        else (task, false)
    | None => (task, false)
    end in
  match typed_priority with
  | Some typed =>
      let prio_str := strip typed in
      if str_truthy prio_str then
        match edit_new_priority task prio_str with
        | Some n => (set_priority task (clamp_priority n), true)
        | None => (task, ch)
        end
      else (task, ch)
  | None => (task, ch)
  end.

(** One turn of the loop up to the autosave: the result says whether the
    loop goes on, and gives the variables. *)
Definition tui_step (key : tui_key) (v : Tui) : tui_error + (bool * Tui) :=
  let state := tui_state v in
  let tasks := sorted_entries (state_tasks state) in
  let len := Z.of_nat (length tasks) in
  let idx := adjust_cursor len (current_idx v) in
  let selected :=
    match py_index tasks idx with
    | Some entry => inr entry
    | None => inl IndexError
    end in
  let task_key (task : Task) :=
    match task_id task with
    | Some tid => inr tid
    | None => inl KeyError
    end in
  match key with
  | KeyQuit => inr (false, mkTui state idx (changed v))
  | KeyDown =>
      inr (true, mkTui state (if (idx <? len - 1)%Z then idx + 1 else idx)
                       (changed v))
  | KeyUp =>
      inr (true, mkTui state (if (idx >? 0)%Z then idx - 1 else idx)
                       (changed v))
  | KeySpace =>
      match tasks with
      | [] => inr (true, mkTui state idx (changed v))
      | _ :: _ =>
          match selected with
          | inl e => inl e
          | inr (_, task) =>
              match task_key task with
              | inl e => inl e
              | inr tid => inr (true, mkTui (toggle_task state tid).2 idx true)
              end
          end
      end
  | KeyDelete =>
      match tasks with
      | [] => inr (true, mkTui state idx (changed v))
      | _ :: _ =>
          match selected with
          | inl e => inl e
          | inr (_, task) =>
              match task_key task with
              | inl e => inl e
              | inr tid =>
                  let '(deleted, state') := delete_task state tid in
                  if deleted then
                    let len' := Z.of_nat (length (state_tasks state')) in
                    inr (true,
                         mkTui state'
                               (if (idx >=? len')%Z then Z.max 0 (len' - 1)
                                else idx)
                               true)
                  else inr (true, mkTui state' idx (changed v))
              end
          end
      end
  | KeyClear =>
      match tasks with
      | [] => inr (true, mkTui state idx (changed v))
      | _ :: _ => inr (true, mkTui (clear_completed state) 0 true)
      end
  | KeyAdd typed_title typed_priority uid now_iso =>
      match typed_title with
      | None => inl UnicodeDecodeError
      | Some typed =>
          let ttl := strip typed in
          if str_truthy ttl then
            match typed_priority with
            | None => inl UnicodeDecodeError
            | Some typed =>
                match tui_priority (strip typed) with
                | inl e => inl e
                | inr prio =>
                    inr (true,
                         mkTui (add_task state ttl prio uid now_iso) idx true)
                end
            end
          else inr (true, mkTui state idx (changed v))
      end
  | KeyEdit typed_title typed_priority =>
      match tasks with
      | [] => inr (true, mkTui state idx (changed v))
      | _ :: _ =>
          match selected with
          | inl e => inl e
          | inr (place, task) =>
              let '(task', ch) := edit_task task typed_title typed_priority in
              inr (true,
                   mkTui (mkState
                            (Some (<[place := task']> (state_tasks state)))
                            (show_index state))
                         idx (changed v || ch))
          end
      end
  | KeyOther => inr (true, mkTui state idx (changed v))
  end.

(** The loop on the keys pressed so far, with its autosave at the end of
    each turn.  An exception leaves the loop; the result says whether the
    loop still runs. *)
Fixpoint tui_loop (home : string) (json_dumps : State -> string)
    (keys : list tui_key) (v : Tui) : IO (tui_error + (bool * Tui)) :=
  match keys with
  | [] => io_ret (inr (true, v))
  | key :: rest =>
      match tui_step key v with
      | inl e => io_ret (inl e)
      | inr (false, v') => io_ret (inr (false, v'))
      | inr (true, v') =>
          (if changed v' then save_state home json_dumps (tui_state v')
           else io_ret tt) ;;;
          tui_loop home json_dumps rest v'
      end
  end.

(** ** Properties of a task list *)

(** Every task has a priority, and it lies between 1 and 5. *)
Definition priorities_valid (ts : list Task) : Prop :=
  Forall (fun t => exists p, priority t = Some p /\ 1 <= p <= 5) ts.

(** Every task has an id, and no two tasks share one. *)
Definition ids_unique (ts : list Task) : Prop :=
  Forall (fun t => is_Some (task_id t)) ts /\ NoDup (List.map task_id ts).

(** ** Sample states *)

Definition sample_created : string := "2024-01-01T00:00:00".

(** The state of a first run: the two seed tasks. *)
Definition seeded_state : State :=
  mkState (Some (DEFAULT_TASKS sample_created sample_created)) (Some 0).

Definition finished_task : Task :=
  mkTask (Some "a1b2c3d4e5") (Some "Water the plants") (Some 2) (Some true)
         (Some sample_created).

(** Tasks in display order, with a tie on every level: priority decides
    between the first two, the creation time between the second and the
    third, the title between the third and the fourth; the last has no
    priority and counts as 3. *)
Definition ranked_tasks : list Task :=
  [ mkTask (Some "t1") (Some "Zebra") (Some 1) (Some false)
           (Some "2024-02-01T09:00:00");
    mkTask (Some "t2") (Some "Yak") (Some 2) (Some false)
           (Some "2024-01-01T09:00:00");
    mkTask (Some "t3") (Some "Ant") (Some 2) (Some true)
           (Some "2024-01-02T09:00:00");
    mkTask (Some "t4") (Some "Bee") (Some 2) (Some false)
           (Some "2024-01-02T09:00:00");
    mkTask (Some "t5") (Some "Aardvark") None (Some false)
           (Some "2023-01-01T09:00:00") ].

(** A collection whose only task is completed. *)
Definition all_done_state : State := mkState (Some [finished_task]) (Some 0).

(** A task record written without the [done] and [created] fields. *)
Definition bare_task : Task :=
  mkTask (Some "f00dfacade") (Some "Call the bank") (Some 2) None None.

Definition bare_state : State :=
  mkState (Some [finished_task; bare_task]) (Some 0).

(** A stand-in for the JSON codec that knows three texts: the empty object,
    the empty array, and nothing else. *)
Definition sample_loads (txt : string) : option Parsed :=
  if String.eqb txt "{}" then Some (ParsedDict (mkState None None))
  else if String.eqb txt "[]" then Some ParsedOther
  else None.

Definition sample_dumps (_ : State) : string := "{}".

Definition sample_home : string := "/home/user".

(** A file system whose state file holds [txt]. *)
Definition fs_with (txt : string) : FS :=
  mkFS {[DATA_DIR sample_home]} {[DATA_FILE sample_home := txt]}.

(** A file system with a stale temporary file and a file of someone else. *)
Definition cluttered_fs : FS :=
  mkFS {[DATA_DIR sample_home]}
       {[ (DATA_DIR sample_home, "tasks.tmp") := "stale";
          ("/etc", "hosts") := "localhost" ]}.

(** A task record without an id. *)
Definition nameless_task : Task :=
  mkTask None (Some "Imported note") (Some 1) None None.

Definition nameless_state : State := mkState (Some [nameless_task]) None.

(** Keys pressed in the editor: down, a new priority for the selected task,
    a new task, quit. *)
Definition sample_keys : list tui_key :=
  [KeyDown; KeyEdit (Some "") (Some "77");
   KeyAdd (Some " Tea ") (Some "x") "a0b1c2d3e4" sample_created; KeyQuit].

(** * Properties *)

(** ** The order on sort keys *)

Lemma ascii_compare_lt_trans (a b c : ascii) :
  Ascii.compare a b = Lt -> Ascii.compare b c = Lt -> Ascii.compare a c = Lt.
Proof.
  unfold Ascii.compare. rewrite !N.compare_lt_iff. apply N.lt_trans.
Qed.

Lemma string_compare_lt_trans (a b c : string) :
  String.compare a b = Lt -> String.compare b c = Lt ->
  String.compare a c = Lt.
Proof.
  revert b c. induction a as [|x a IH]; intros [|y b] [|z c]; simpl;
    try congruence.
  destruct (Ascii.compare x y) eqn:Hxy; try discriminate;
    destruct (Ascii.compare y z) eqn:Hyz; try discriminate; intros Hab Hbc.
  - apply Ascii.compare_eq_iff in Hxy, Hyz. subst.
    unfold Ascii.compare. rewrite N.compare_refl. eauto.
  - apply Ascii.compare_eq_iff in Hxy. subst. now rewrite Hyz.
  - apply Ascii.compare_eq_iff in Hyz. subst. now rewrite Hxy.
  - now rewrite (ascii_compare_lt_trans _ _ _ Hxy Hyz).
Qed.

Lemma str_ltb_lt (a b : string) : str_ltb a b = true <-> str_lt a b.
Proof.
  unfold str_ltb, String.ltb, str_lt.
  destruct (String.compare a b); split; congruence.
Qed.

Lemma string_compare_refl (a : string) : String.compare a a = Eq.
Proof.
  induction a as [|x a IH]; simpl; [reflexivity|].
  unfold Ascii.compare. now rewrite N.compare_refl.
Qed.

Lemma str_ltb_irrefl (a : string) : str_ltb a a = false.
Proof. unfold str_ltb, String.ltb. now rewrite string_compare_refl. Qed.

Lemma str_ltb_trans (a b c : string) :
  str_ltb a b = true -> str_ltb b c = true -> str_ltb a c = true.
Proof. rewrite !str_ltb_lt. apply string_compare_lt_trans. Qed.

Lemma str_ltb_asym (a b : string) : str_ltb a b = true -> str_ltb b a = false.
Proof.
  intros Hab. destruct (str_ltb b a) eqn:Hba; [|reflexivity].
  pose proof (str_ltb_trans _ _ _ Hab Hba) as H.
  now rewrite str_ltb_irrefl in H.
Qed.

Lemma str_ltb_connex (a b : string) :
  a <> b -> str_ltb a b = false -> str_ltb b a = true.
Proof.
  unfold str_ltb, String.ltb. intros Hne.
  rewrite (String.compare_antisym b a).
  destruct (String.compare a b) eqn:Hc; simpl; try congruence.
  apply String.compare_eq_iff in Hc. contradiction.
Qed.

Lemma str_ltb_negtrans (a b c : string) :
  str_ltb b a = false -> str_ltb c b = false -> str_ltb c a = false.
Proof.
  intros Hba Hcb. destruct (str_ltb c a) eqn:Hca; [|reflexivity].
  destruct (String.eqb_spec a b) as [->|Hne]; [congruence|].
  pose proof (str_ltb_connex _ _ Hne) as Hab.
  destruct (str_ltb a b) eqn:E.
  - now rewrite (str_ltb_trans _ _ _ Hca E) in Hcb.
  - rewrite Hab in Hba; [discriminate|reflexivity].
Qed.

Lemma str_le_ltb (a b : string) : str_le a b <-> str_ltb b a = false.
Proof.
  unfold str_le. rewrite <- str_ltb_lt. split.
  - intros [H| ->]; [now apply str_ltb_asym|apply str_ltb_irrefl].
  - intros H. destruct (String.eqb_spec a b) as [->|Hne]; [now right|].
    left. apply str_ltb_connex; [congruence|exact H].
Qed.

Ltac key_cases :=
  repeat match goal with
    | k : Key |- _ => destruct k as [[? ?] ?]
    end;
  unfold key_ltb, key_le; simpl;
  repeat match goal with
    | |- context [Z.eqb ?x ?y] => destruct (Z.eqb_spec x y); simpl
    | |- context [String.eqb ?x ?y] => destruct (String.eqb_spec x y); simpl
    | |- context [Z.ltb ?x ?y] => destruct (Z.ltb_spec x y); simpl
    end;
  subst.

Lemma key_ltb_asym (a b : Key) : key_ltb a b = true -> key_ltb b a = false.
Proof.
  key_cases; try congruence; try lia; auto using str_ltb_asym.
Qed.

Lemma key_ltb_negtrans (a b c : Key) :
  key_ltb b a = false -> key_ltb c b = false -> key_ltb c a = false.
Proof.
  key_cases; try congruence; try lia; eauto using str_ltb_negtrans.
  match goal with
  | |- str_ltb ?x ?y = false -> str_ltb ?y ?x = false -> _ =>
      intros H1 H2; assert (x <> y) by congruence;
      rewrite (str_ltb_connex x y) in H2 by assumption; discriminate
  end.
Qed.

Lemma key_le_ltb (a b : Key) : key_le a b <-> key_ltb b a = false.
Proof.
  key_cases; rewrite <- ?str_ltb_lt, ?str_le_ltb.
  - rewrite str_ltb_irrefl. intuition (lia || discriminate).
  - split.
    + intros [?|[_ [H|[? _]]]]; [lia|now apply str_ltb_asym|congruence].
    + intros H. right. split; [reflexivity|]. left.
      apply str_ltb_connex; [congruence|exact H].
  - split; [intros [?|[? _]]; [lia|congruence]|discriminate].
  - split; [reflexivity|]. intros _. left. lia.
Qed.

(** ** The stable sort *)

Section StableSortFacts.
Context {A : Type} (ltb : A -> A -> bool).
Hypothesis ltb_asym : forall x y, ltb x y = true -> ltb y x = false.
Hypothesis ltb_negtrans :
  forall x y z, ltb y x = false -> ltb z y = false -> ltb z x = false.

Lemma not_after_trans : Relations_1.Transitive (not_after ltb).
Proof. intros x y z Hxy Hyz. exact (ltb_negtrans x y z Hxy Hyz). Qed.

Lemma insert_stable_perm (x : A) (l : list A) :
  Permutation (x :: l) (insert_stable ltb x l).
Proof.
  induction l as [|y r IH]; simpl; [reflexivity|].
  destruct (ltb y x); [|reflexivity].
  rewrite perm_swap. now apply perm_skip.
Qed.

Lemma sorted_perm (l : list A) : Permutation l (sorted ltb l).
Proof.
  induction l as [|x r IH]; simpl; [reflexivity|].
  rewrite <- insert_stable_perm. now apply perm_skip.
Qed.

Lemma sorted_length (l : list A) : length (sorted ltb l) = length l.
Proof. symmetry. apply Permutation_length, sorted_perm. Qed.

Lemma sorted_In (x : A) (l : list A) : In x (sorted ltb l) <-> In x l.
Proof.
  split; apply Permutation_in; [symmetry|]; apply sorted_perm.
Qed.

Lemma insert_stable_Sorted (x : A) (l : list A) :
  Sorted (not_after ltb) l -> Sorted (not_after ltb) (insert_stable ltb x l).
Proof.
  induction 1 as [|y r Hr IH Hhd]; simpl.
  - repeat constructor.
  - destruct (ltb y x) eqn:Hyx.
    + constructor; [exact IH|].
      destruct Hhd as [|z r' Hyz]; simpl.
      * constructor. now apply ltb_asym.
      * destruct (ltb z x); constructor; [exact Hyz|now apply ltb_asym].
    + repeat constructor; assumption.
Qed.

Lemma sorted_Sorted (l : list A) : Sorted (not_after ltb) (sorted ltb l).
Proof.
  induction l as [|x r IH]; simpl; [constructor|].
  now apply insert_stable_Sorted.
Qed.

Lemma sorted_StronglySorted (l : list A) :
  StronglySorted (not_after ltb) (sorted ltb l).
Proof.
  apply Sorted_StronglySorted; [exact not_after_trans|apply sorted_Sorted].
Qed.

Lemma insert_stable_front (x : A) (l : list A) :
  HdRel (not_after ltb) x l -> insert_stable ltb x l = x :: l.
Proof.
  destruct 1 as [|y r Hxy]; simpl; [reflexivity|].
  unfold not_after in Hxy. now rewrite Hxy.
Qed.

Lemma sorted_fixpoint (l : list A) :
  Sorted (not_after ltb) l -> sorted ltb l = l.
Proof.
  induction 1 as [|x r Hr IH Hhd]; simpl; [reflexivity|].
  rewrite IH. now apply insert_stable_front.
Qed.

Lemma sorted_idempotent (l : list A) :
  sorted ltb (sorted ltb l) = sorted ltb l.
Proof. apply sorted_fixpoint, sorted_Sorted. Qed.

Lemma HdRel_filter (p : A -> bool) (x : A) (l : list A) :
  Forall (not_after ltb x) l -> HdRel (not_after ltb) x (List.filter p l).
Proof.
  induction 1 as [|y r Hy Hr IH]; simpl; [constructor|].
  destruct (p y); [now constructor|exact IH].
Qed.

Lemma filter_insert_stable (p : A -> bool) (x : A) (l : list A) :
  StronglySorted (not_after ltb) l ->
  List.filter p (insert_stable ltb x l) =
  if p x then insert_stable ltb x (List.filter p l) else List.filter p l.
Proof.
  induction 1 as [|y r Hr IH Hall]; simpl.
  - destruct (p x); reflexivity.
  - destruct (ltb y x) eqn:Hyx; simpl.
    + rewrite IH. destruct (p x), (p y); simpl; rewrite ?Hyx; reflexivity.
    + destruct (p x) eqn:Hpx; [|reflexivity].
      symmetry. apply insert_stable_front.
      apply (HdRel_filter p x (y :: r)). constructor; [exact Hyx|].
      eapply Forall_impl; [exact Hall|].
      intros z Hyz. exact (ltb_negtrans x y z Hyx Hyz).
Qed.

(** Filtering commutes with the stable sort: the order of the elements kept
    is the order they had. *)
Lemma filter_sorted (p : A -> bool) (l : list A) :
  List.filter p (sorted ltb l) = sorted ltb (List.filter p l).
Proof.
  induction l as [|x r IH]; simpl; [reflexivity|].
  rewrite filter_insert_stable by apply sorted_StronglySorted.
  rewrite IH. destruct (p x); reflexivity.
Qed.

Lemma Sorted_all_related (l : list A) :
  (forall y z, In y l -> In z l -> not_after ltb y z) ->
  Sorted (not_after ltb) l.
Proof.
  induction l as [|x r IH]; intros Hrel; constructor.
  - apply IH. intros y z Hy Hz. apply Hrel; now right.
  - destruct r as [|y r']; constructor. apply Hrel; [now left|right; now left].
Qed.

(** The sort is stable: the elements that compare equal to [x] come out in
    the order they came in. *)
Lemma sorted_stable (x : A) (l : list A) :
  let same y := negb (ltb x y) && negb (ltb y x) in
  List.filter same (sorted ltb l) = List.filter same l.
Proof.
  intros same. rewrite filter_sorted. apply sorted_fixpoint.
  apply Sorted_all_related. intros y z Hy Hz.
  apply filter_In in Hy, Hz. destruct Hy as [_ Hy], Hz as [_ Hz].
  subst same. simpl in Hy, Hz.
  apply andb_true_iff in Hy, Hz. rewrite !negb_true_iff in Hy, Hz.
  destruct Hy as [Hxy Hyx], Hz as [Hxz Hzx].
  exact (ltb_negtrans y x z Hxy Hzx).
Qed.

End StableSortFacts.

(** ** [sorted_tasks] *)

Lemma task_ltb_asym (a b : Task) : task_ltb a b = true -> task_ltb b a = false.
Proof. apply key_ltb_asym. Qed.

Lemma task_ltb_negtrans (a b c : Task) :
  task_ltb b a = false -> task_ltb c b = false -> task_ltb c a = false.
Proof. apply key_ltb_negtrans. Qed.

Lemma task_le_not_after (a b : Task) : task_le a b <-> not_after task_ltb a b.
Proof. apply key_le_ltb. Qed.

Lemma Sorted_task_le (l : list Task) :
  Sorted task_le l <-> Sorted (not_after task_ltb) l.
Proof.
  split; induction 1 as [|x r Hr IH Hhd]; constructor; try exact IH;
    destruct Hhd; constructor; now apply task_le_not_after.
Qed.

Lemma StronglySorted_task_le (l : list Task) :
  StronglySorted (not_after task_ltb) l -> StronglySorted task_le l.
Proof.
  induction 1 as [|x r Hr IH Hall]; constructor; [exact IH|].
  eapply Forall_impl; [exact Hall|]. intros y. apply task_le_not_after.
Qed.

Lemma sorted_tasks_length (ts : list Task) :
  length (sorted_tasks ts) = length ts.
Proof. apply sorted_length. Qed.

Lemma sorted_tasks_nil (ts : list Task) : sorted_tasks ts = [] <-> ts = [].
Proof.
  split; [|now intros ->].
  intros H. apply (f_equal length) in H. rewrite sorted_tasks_length in H.
  now destruct ts.
Qed.

Lemma sorted_tasks_In (t : Task) (ts : list Task) :
  In t (sorted_tasks ts) <-> In t ts.
Proof. apply sorted_In. Qed.

Lemma task_order_le (a b : Task) : task_order a b <-> task_le a b.
Proof. unfold task_order, task_le, key_le, sort_key. reflexivity. Qed.

Lemma Sorted_task_order (l : list Task) :
  Sorted task_order l <-> Sorted task_le l.
Proof.
  split; induction 1 as [|x r Hr IH Hhd]; constructor; try exact IH;
    destruct Hhd; constructor; now apply task_order_le.
Qed.

Lemma StronglySorted_task_order (l : list Task) :
  StronglySorted task_le l -> StronglySorted task_order l.
Proof.
  induction 1 as [|x r Hr IH Hall]; constructor; [exact IH|].
  eapply Forall_impl; [exact Hall|]. intros y. apply task_order_le.
Qed.

(** C4. [sorted_tasks] orders every list of tasks ascending by the
    lexicographic tuple (priority, created, title): the result is a
    rearrangement of the list in which every task stands before every later
    one in the order [task_order] of the fields: smaller priority first,
    among equal priorities the earlier creation time first, among these
    the smaller title first.  It is idempotent, and a list already in that
    order is returned as it is. *)
Theorem sorted_tasks_ordered_idempotent (ts : list Task) :
  StronglySorted task_order (sorted_tasks ts) /\
  Permutation ts (sorted_tasks ts) /\
  sorted_tasks (sorted_tasks ts) = sorted_tasks ts /\
  (Sorted task_order ts -> sorted_tasks ts = ts).
Proof.
  repeat split.
  - apply StronglySorted_task_order, StronglySorted_task_le,
      sorted_StronglySorted; [exact task_ltb_asym|exact task_ltb_negtrans].
  - apply sorted_perm.
  - apply sorted_idempotent. exact task_ltb_asym.
  - intros Hs. apply sorted_fixpoint.
    now apply Sorted_task_le, Sorted_task_order.
Qed.

(** Decides [task_order] between two given tasks. *)
Ltac order_step :=
  unfold task_order, str_lt, str_le; simpl;
  first
    [ left; lia
    | right; split; [reflexivity|];
      first
        [ left; reflexivity
        | right; split; [reflexivity|];
          first [left; reflexivity|right; reflexivity] ] ].

Lemma sorted_tasks_ordered_idempotent_witness :
  sorted_tasks ranked_tasks = ranked_tasks /\
  StronglySorted task_order (sorted_tasks (rev ranked_tasks)).
Proof.
  split; [|apply (sorted_tasks_ordered_idempotent (rev ranked_tasks))].
  apply (sorted_tasks_ordered_idempotent ranked_tasks).
  unfold ranked_tasks.
  repeat (apply Sorted_cons;
          [|first [apply HdRel_nil|apply HdRel_cons; order_step]]).
  apply Sorted_nil.
Defined.

(** The same tasks stored in the opposite order are brought into it. *)
Example sorted_tasks_reversed :
  sorted_tasks (rev ranked_tasks) = ranked_tasks.
Proof. reflexivity. Qed.

(** ** [next_display_pool] *)

Lemma pending_sorted_commute (state : State) :
  sorted_tasks (pending_tasks state) =
  List.filter (fun t => negb (truthy (done t)))
              (sorted_tasks (state_tasks state)).
Proof.
  symmetry. apply filter_sorted; [exact task_ltb_asym|exact task_ltb_negtrans].
Qed.

Lemma pending_nonempty_tasks (state : State) :
  pending_tasks state <> [] -> state_tasks state <> [].
Proof. unfold pending_tasks. intros H E. now rewrite E in H. Qed.

Lemma next_display_pool_pending (state : State) :
  sorted_tasks (pending_tasks state) <> [] ->
  next_display_pool state = sorted_tasks (pending_tasks state).
Proof.
  unfold next_display_pool.
  destruct (sorted_tasks (pending_tasks state)); congruence.
Qed.

Lemma next_display_pool_fallback (state : State) :
  sorted_tasks (pending_tasks state) = [] ->
  next_display_pool state = sorted_tasks (state_tasks state).
Proof. unfold next_display_pool. now intros ->. Qed.

Lemma next_display_pool_nil (state : State) :
  next_display_pool state = [] <-> state_tasks state = [].
Proof.
  destruct (sorted_tasks (pending_tasks state)) as [|t r] eqn:E.
  - rewrite next_display_pool_fallback by exact E. apply sorted_tasks_nil.
  - rewrite next_display_pool_pending by now rewrite E.
    rewrite E. split; [discriminate|]. intros Hnil. exfalso.
    assert (Hp : pending_tasks state <> []).
    { intros Hp. rewrite Hp in E. discriminate. }
    now apply pending_nonempty_tasks in Hp.
Qed.

(** C3. [next_display_pool] is the sorted pending tasks when there are
    some, and the whole sorted collection otherwise; sorting the pending
    tasks or keeping the pending tasks of the sorted collection gives the
    same list.  The pool is empty exactly when the collection is. *)
Theorem next_display_pool_spec (state : State) :
  (sorted_tasks (pending_tasks state) <> [] ->
   next_display_pool state = sorted_tasks (pending_tasks state)) /\
  (sorted_tasks (pending_tasks state) = [] ->
   next_display_pool state = sorted_tasks (state_tasks state)) /\
  sorted_tasks (pending_tasks state) =
    List.filter (fun t => negb (truthy (done t)))
                (sorted_tasks (state_tasks state)) /\
  (next_display_pool state = [] <-> state_tasks state = []).
Proof.
  split; [apply next_display_pool_pending|].
  split; [apply next_display_pool_fallback|].
  split; [apply pending_sorted_commute|apply next_display_pool_nil].
Qed.

Lemma next_display_pool_spec_witness :
  next_display_pool all_done_state = [finished_task] /\
  next_display_pool seeded_state = sorted_tasks (pending_tasks seeded_state).
Proof.
  split.
  - now apply (next_display_pool_spec all_done_state).
  - now apply (next_display_pool_spec seeded_state).
Defined.

(** ** Rotation *)

Lemma py_int_floor (x : Q) : (0 <= x)%Q -> py_int x = Qfloor x.
Proof.
  destruct x as [n d]. unfold Qle, py_int, Qfloor. simpl. intros Hn.
  apply Z.quot_div_nonneg; lia.
Qed.

Lemma rotation_index_floor (now : Q) :
  (0 <= now)%Q ->
  rotation_index now = Qfloor (now / inject_Z ROTATION_INTERVAL).
Proof.
  intros Hnow. apply py_int_floor.
  apply Qle_shift_div_l; [reflexivity|]. now rewrite Qmult_0_l.
Qed.

Lemma rotation_index_eq (now1 now2 : Q) :
  (0 <= now1)%Q -> (now1 == now2)%Q ->
  rotation_index now1 = rotation_index now2.
Proof.
  intros H1 Heq. rewrite !rotation_index_floor.
  - now rewrite Heq.
  - now rewrite <- Heq.
  - exact H1.
Qed.

Lemma rotation_index_step (now : Q) :
  (0 <= now)%Q ->
  rotation_index (now + inject_Z ROTATION_INTERVAL) = rotation_index now + 1.
Proof.
  intros Hnow.
  rewrite !rotation_index_floor; [|exact Hnow|].
  - destruct now as [n d]. unfold Qfloor, Qdiv, Qmult, Qplus, Qinv. simpl.
    rewrite !Z.mul_1_r, !Pos.mul_1_r, Pos2Z.inj_mul.
    change ROTATION_INTERVAL with 2.
    replace (n + 2 * Z.pos d) with (n + 1 * (Z.pos d * 2)) by lia.
    apply Z.div_add. lia.
  - apply (Qle_trans _ (now + 0)%Q).
    + now rewrite Qplus_0_r.
    + apply Qplus_le_r. discriminate.
Qed.

(** Before the epoch [int] and the floor differ: [int] truncates toward
    zero. *)
Example rotation_index_truncates :
  rotation_index (-1 # 1) = 0 /\
  Qfloor ((-1 # 1) / inject_Z ROTATION_INTERVAL) = -1.
Proof. split; reflexivity. Qed.

Lemma get_display_task_lookup (state : State) (now : Q) :
  sorted_tasks (pending_tasks state) <> [] ->
  get_display_task state now =
    sorted_tasks (pending_tasks state)
      !! Z.to_nat (rotation_index now
                   mod Z.of_nat (length (sorted_tasks (pending_tasks state)))).
Proof.
  unfold get_display_task.
  destruct (sorted_tasks (pending_tasks state)); [congruence|reflexivity].
Qed.

Lemma pool_index_in_range {A} (pool : list A) (i : Z) :
  pool <> [] ->
  (Z.to_nat (i mod Z.of_nat (length pool)) < length pool)%nat.
Proof.
  intros Hne. assert (0 < Z.of_nat (length pool)).
  { destruct pool; [congruence|simpl; lia]. }
  pose proof (Z.mod_pos_bound i (Z.of_nat (length pool))). lia.
Qed.

Lemma get_display_task_None (state : State) (now : Q) :
  get_display_task state now = None <-> sorted_tasks (pending_tasks state) = [].
Proof.
  split.
  - intros Hnone.
    destruct (sorted_tasks (pending_tasks state)) as [|t r] eqn:E;
      [reflexivity|].
    rewrite get_display_task_lookup in Hnone by now rewrite E.
    apply lookup_ge_None in Hnone. rewrite E in Hnone.
    assert (Hne : t :: r <> []) by discriminate.
    pose proof (pool_index_in_range (t :: r) (rotation_index now) Hne). lia.
  - unfold get_display_task. now intros ->.
Qed.

Lemma all_done_no_pending (state : State) :
  (forall t, In t (state_tasks state) -> truthy (done t) = true) ->
  pending_tasks state = [].
Proof.
  unfold pending_tasks. induction (state_tasks state) as [|t r IH]; simpl;
    [reflexivity|]. intros Hall.
  rewrite (Hall t) by now left. simpl. apply IH. intros u Hu.
  apply Hall. now right.
Qed.

(** C1 (as the code has it).  At every time [now >= 0], [get_display_task]
    returns none exactly when the state has no pending task, and otherwise
    the task at index [floor(now / ROTATION_INTERVAL) mod n] of the sorted
    pending tasks, [n] their number; the display pool is then that same
    list.  On a nonempty collection in which every task is done it returns
    none, although the display pool is not empty. *)
Theorem get_display_task_spec (state : State) (now : Q) :
  (0 <= now)%Q ->
  let pool := sorted_tasks (pending_tasks state) in
  (get_display_task state now = None <-> pool = []) /\
  (pool <> [] ->
   is_Some (get_display_task state now) /\
   get_display_task state now =
     pool !! Z.to_nat (Qfloor (now / inject_Z ROTATION_INTERVAL)
                       mod Z.of_nat (length pool)) /\
   next_display_pool state = pool) /\
  (state_tasks state <> [] ->
   (forall t, In t (state_tasks state) -> truthy (done t) = true) ->
   get_display_task state now = None /\ next_display_pool state <> []).
Proof.
  intros Hnow pool. subst pool. split; [apply get_display_task_None|]. split.
  - intros Hne. rewrite <- rotation_index_floor by exact Hnow.
    rewrite get_display_task_lookup by exact Hne. repeat split.
    + apply lookup_lt_is_Some_2, pool_index_in_range, Hne.
    + now apply next_display_pool_pending.
  - intros Hne Hall. split.
    + apply get_display_task_None. now rewrite all_done_no_pending.
    + intros Hnil. now apply next_display_pool_nil in Hnil.
Qed.

Lemma get_display_task_spec_witness :
  get_display_task seeded_state (7 # 2) =
  Some (mkTask (Some "seed-manage") (Some "Right click to edit or add")
               (Some 3) (Some false) (Some sample_created)).
Proof.
  assert (Hnow : (0 <= 7 # 2)%Q) by discriminate.
  assert (Hne : sorted_tasks (pending_tasks seeded_state) <> [])
    by discriminate.
  destruct (get_display_task_spec seeded_state (7 # 2) Hnow)
    as [_ [Hsome _]].
  destruct (Hsome Hne) as [_ [-> _]]. reflexivity.
Defined.

(** C1, as stated, fails: every task of [all_done_state] is done, its
    display pool holds the task, and [get_display_task] returns none. *)
Lemma get_display_task_all_done :
  state_tasks all_done_state = [finished_task] /\
  next_display_pool all_done_state = [finished_task] /\
  get_display_task all_done_state 0 = None.
Proof. repeat split. Qed.

(** C5. For a fixed state the selected task depends on the time only: equal
    times select the same task.  With a nonempty pool, the task selected at
    [now] is at index [i = floor(now / ROTATION_INTERVAL) mod n] of the
    pool, and the one selected at [now + ROTATION_INTERVAL] is at index
    [(i + 1) mod n]. *)
Theorem get_display_task_rotation (state : State) (now now' : Q) :
  (0 <= now)%Q -> (now == now')%Q ->
  let pool := sorted_tasks (pending_tasks state) in
  let n := Z.of_nat (length pool) in
  let i := Qfloor (now / inject_Z ROTATION_INTERVAL) mod n in
  get_display_task state now = get_display_task state now' /\
  (pool <> [] ->
   0 <= i < n /\
   get_display_task state now = pool !! Z.to_nat i /\
   get_display_task state (now + inject_Z ROTATION_INTERVAL) =
     pool !! Z.to_nat ((i + 1) mod n) /\
   is_Some (get_display_task state now) /\
   is_Some (get_display_task state (now + inject_Z ROTATION_INTERVAL))).
Proof.
  intros Hnow Heq pool n i. subst pool n i.
  rewrite <- rotation_index_floor by exact Hnow. split.
  - unfold get_display_task.
    now rewrite (rotation_index_eq now now' Hnow Heq).
  - intros Hne. rewrite !get_display_task_lookup by exact Hne.
    rewrite rotation_index_step by exact Hnow.
    rewrite Zplus_mod_idemp_l.
    assert (0 < Z.of_nat (length (sorted_tasks (pending_tasks state)))).
    { destruct (sorted_tasks (pending_tasks state)); [congruence|simpl; lia]. }
    repeat split.
    + now apply Z.mod_pos_bound.
    + now apply Z.mod_pos_bound.
    + apply lookup_lt_is_Some_2, pool_index_in_range, Hne.
    + apply lookup_lt_is_Some_2, pool_index_in_range, Hne.
Qed.

Lemma get_display_task_rotation_witness :
  get_display_task seeded_state (1 # 2) =
    Some (mkTask (Some "seed-quickstart") (Some "Part 6") (Some 1)
                 (Some false) (Some sample_created)) /\
  get_display_task seeded_state ((1 # 2) + inject_Z ROTATION_INTERVAL) =
    Some (mkTask (Some "seed-manage") (Some "Right click to edit or add")
                 (Some 3) (Some false) (Some sample_created)).
Proof.
  assert (Hnow : (0 <= 1 # 2)%Q) by discriminate.
  assert (Heq : (1 # 2 == 2 # 4)%Q) by reflexivity.
  assert (Hne : sorted_tasks (pending_tasks seeded_state) <> [])
    by discriminate.
  destruct (get_display_task_rotation seeded_state (1 # 2) (2 # 4) Hnow Heq)
    as [_ Hrot].
  destruct (Hrot Hne) as (_ & -> & -> & _). split; reflexivity.
Defined.

Lemma get_display_task_In (state : State) (now : Q) (t : Task) :
  get_display_task state now = Some t -> In t (pending_tasks state).
Proof.
  intros Ht.
  destruct (sorted_tasks (pending_tasks state)) as [|u r] eqn:E.
  - rewrite (proj2 (get_display_task_None state now) E) in Ht. discriminate.
  - rewrite get_display_task_lookup in Ht by now rewrite E.
    apply list_elem_of_lookup_2, list_elem_of_In in Ht.
    apply sorted_tasks_In. exact Ht.
Qed.

(** C9. A task returned by [get_display_task] is pending: its [done] flag
    is false (or absent).  With no pending task the function returns none,
    also when the collection holds completed tasks. *)
Theorem get_display_task_pending (state : State) (now : Q) :
  (forall t, get_display_task state now = Some t ->
             truthy (done t) = false /\ In t (state_tasks state)) /\
  (pending_tasks state = [] -> get_display_task state now = None) /\
  ((forall t, In t (state_tasks state) -> truthy (done t) = true) ->
   get_display_task state now = None).
Proof.
  split; [|split].
  - intros t Ht. apply get_display_task_In, filter_In in Ht.
    destruct Ht as [Hin Hp]. split; [|exact Hin]. now apply negb_true_iff.
  - intros Hp. apply get_display_task_None. now rewrite Hp.
  - intros Hall. apply get_display_task_None.
    now rewrite all_done_no_pending.
Qed.

Lemma get_display_task_pending_witness :
  get_display_task all_done_state (7 # 2) = None.
Proof.
  apply (get_display_task_pending all_done_state (7 # 2)).
  intros t [<-|[]]. reflexivity.
Defined.

(** ** [toggle_task] *)

Lemma toggle_loop_false (ts : list Task) (tid : string) :
  (toggle_loop ts tid).1 = false ->
  (toggle_loop ts tid).2 = ts /\
  forall u, In u ts -> task_id u <> Some tid.
Proof.
  induction ts as [|t r IH]; simpl; [now intros _; split|].
  case_bool_decide as Hid; simpl; [discriminate|].
  destruct (toggle_loop r tid) as [b r'] eqn:E. simpl in *. intros Hb.
  destruct (IH Hb) as [-> Hr]. split; [reflexivity|].
  intros u [<-|Hu]; [exact Hid|now apply Hr].
Qed.

Lemma toggle_loop_true (ts : list Task) (tid : string) :
  (toggle_loop ts tid).1 = true ->
  exists before t after,
    ts = (before ++ t :: after)%list /\
    (forall u, In u before -> task_id u <> Some tid) /\
    task_id t = Some tid /\
    (toggle_loop ts tid).2 = (before ++ flip_done t :: after)%list.
Proof.
  induction ts as [|t r IH]; simpl; [discriminate|].
  case_bool_decide as Hid; simpl.
  - intros _. exists [], t, r. repeat split; [intros u []|exact Hid].
  - destruct (toggle_loop r tid) as [b r'] eqn:E. simpl in *. intros Hb.
    destruct (IH Hb) as (before & t' & after & -> & Hbefore & Hid' & ->).
    exists (t :: before), t', after. repeat split; [|exact Hid'].
    intros u [<-|Hu]; [exact Hid|now apply Hbefore].
Qed.

Lemma toggle_loop_first (before after : list Task) (t : Task) (tid : string) :
  (forall u, In u before -> task_id u <> Some tid) ->
  task_id t = Some tid ->
  toggle_loop (before ++ t :: after) tid =
  (true, (before ++ flip_done t :: after)%list).
Proof.
  intros Hbefore Hid. induction before as [|u r IH]; simpl.
  - now rewrite bool_decide_eq_true_2.
  - rewrite bool_decide_eq_false_2 by (apply Hbefore; now left).
    rewrite IH; [reflexivity|]. intros v Hv. apply Hbefore. now right.
Qed.

Lemma toggle_task_fst (state : State) (tid : string) :
  (toggle_task state tid).1 = (toggle_loop (state_tasks state) tid).1.
Proof.
  unfold toggle_task, state_tasks. destruct (tasks state) as [ts|]; simpl;
    [|reflexivity].
  now destruct (toggle_loop ts tid).
Qed.

Lemma toggle_task_snd (state : State) (tid : string) :
  (toggle_task state tid).1 = true ->
  (toggle_task state tid).2 =
  mkState (Some (toggle_loop (state_tasks state) tid).2) (show_index state).
Proof.
  unfold toggle_task, state_tasks. destruct (tasks state) as [ts|]; simpl;
    [|discriminate].
  now destruct (toggle_loop ts tid).
Qed.

Lemma toggle_task_true_iff (state : State) (tid : string) :
  (toggle_task state tid).1 = true <->
  exists t, In t (state_tasks state) /\ task_id t = Some tid.
Proof.
  rewrite toggle_task_fst. split.
  - intros Hb.
    destruct (toggle_loop_true _ _ Hb)
      as (before & t & after & E & _ & Hid & _).
    exists t. split; [|exact Hid]. rewrite E. apply in_or_app. right. now left.
  - intros (t & Hin & Hid).
    destruct (toggle_loop (state_tasks state) tid).1 eqn:E; [reflexivity|].
    destruct (toggle_loop_false _ _ E) as [_ Hno]. now apply Hno in Hin.
Qed.

(** C7. [toggle_task] returns true exactly when a task of the collection
    has the given id.  Then the first such task has its [done] flag flipped
    and nothing else changes: the other tasks, the other fields of that
    task and [show_index] are as they were.  When no task has the id the
    state is returned unchanged.  The function is total: it never raises. *)
Theorem toggle_task_spec (state : State) (tid : string) :
  ((toggle_task state tid).1 = true <->
   exists t, In t (state_tasks state) /\ task_id t = Some tid) /\
  ((toggle_task state tid).1 = false -> (toggle_task state tid).2 = state) /\
  ((toggle_task state tid).1 = true ->
   exists before t after,
     state_tasks state = (before ++ t :: after)%list /\
     (forall u, In u before -> task_id u <> Some tid) /\
     task_id t = Some tid /\
     (toggle_task state tid).2 =
       mkState (Some (before ++
                      mkTask (task_id t) (title t) (priority t)
                             (Some (negb (truthy (done t)))) (created t)
                      :: after)%list)
               (show_index state)).
Proof.
  split; [apply toggle_task_true_iff|]. split.
  - unfold toggle_task. destruct state as [[ts|] idx]; simpl; [|reflexivity].
    pose proof (toggle_loop_false ts tid) as Hf.
    destruct (toggle_loop ts tid) as [b ts']. simpl in *. intros ->.
    now destruct (Hf eq_refl) as [-> _].
  - intros Hb. rewrite (toggle_task_snd _ _ Hb).
    rewrite toggle_task_fst in Hb.
    destruct (toggle_loop_true _ _ Hb)
      as (before & t & after & E & Hbefore & Hid & ->).
    now exists before, t, after.
Qed.

Lemma toggle_task_spec_witness :
  (toggle_task seeded_state "seed-manage").1 = true /\
  (toggle_task seeded_state "missing-id").2 = seeded_state.
Proof.
  split.
  - apply (toggle_task_spec seeded_state "seed-manage").
    eexists. split; [right; left; reflexivity|reflexivity].
  - apply (toggle_task_spec seeded_state "missing-id"). reflexivity.
Defined.

(** C10. When a task with the given id lacks the [done] field,
    [toggle_task] returns true; and when that task is the first with this
    id (ids are unique in the data model), it is the task toggled and its
    [done] field becomes [True], all else unchanged: the absent field counts
    as false. *)
Theorem toggle_task_absent_done (state : State) (t : Task) (tid : string) :
  In t (state_tasks state) -> task_id t = Some tid -> done t = None ->
  (toggle_task state tid).1 = true /\
  forall before after,
    state_tasks state = (before ++ t :: after)%list ->
    (forall u, In u before -> task_id u <> Some tid) ->
    (toggle_task state tid).2 =
      mkState (Some (before ++
                     mkTask (task_id t) (title t) (priority t) (Some true)
                            (created t)
                     :: after)%list)
              (show_index state).
Proof.
  intros Hin Hid Hdone.
  assert (Hb : (toggle_task state tid).1 = true).
  { apply toggle_task_true_iff. now exists t. }
  split; [exact Hb|]. intros before after E Hbefore.
  rewrite (toggle_task_snd _ _ Hb), E.
  rewrite (toggle_loop_first before after t tid Hbefore Hid). simpl.
  unfold flip_done. now rewrite Hdone.
Qed.

Lemma toggle_task_absent_done_witness :
  toggle_task bare_state "f00dfacade" =
  (true,
   mkState (Some [finished_task;
                  mkTask (Some "f00dfacade") (Some "Call the bank") (Some 2)
                         (Some true) None])
           (Some 0)).
Proof.
  assert (Hin : In bare_task (state_tasks bare_state)) by (right; now left).
  destruct (toggle_task_absent_done bare_state bare_task "f00dfacade" Hin
              eq_refl eq_refl) as [Hb Hst].
  specialize (Hst [finished_task] [] eq_refl).
  rewrite (surjective_pairing (toggle_task bare_state "f00dfacade")).
  rewrite Hb, Hst; [reflexivity|].
  intros u [<-|[]]. discriminate.
Defined.

(** ** [add_task] and its callers *)

Lemma clamp_priority_range (p : Z) : 1 <= clamp_priority p <= 5.
Proof. unfold clamp_priority. lia. Qed.

Lemma add_task_tasks (state : State) (ttl : string) (prio : Z)
    (uid now_iso : string) :
  state_tasks (add_task state ttl prio uid now_iso) =
  (state_tasks state ++
   [mkTask (Some uid) (Some (strip ttl)) (Some (clamp_priority prio))
           (Some false) (Some now_iso)])%list.
Proof. reflexivity. Qed.

(** C8. The task stored by [add_task] has its priority clamped into
    [1, 5]: a priority in range is stored as given, a smaller one as 1 and
    a larger one as 5; so 7 is stored as 5 and -3 as 1. *)
Theorem add_task_clamps_priority (state : State) (ttl : string) (prio : Z)
    (uid now_iso : string) :
  (exists t,
     state_tasks (add_task state ttl prio uid now_iso) =
       (state_tasks state ++ [t])%list /\
     priority t = Some (clamp_priority prio)) /\
  1 <= clamp_priority prio <= 5 /\
  (1 <= prio <= 5 -> clamp_priority prio = prio) /\
  (prio < 1 -> clamp_priority prio = 1) /\
  (5 < prio -> clamp_priority prio = 5) /\
  priority <$> last (state_tasks (add_task state ttl 7 uid now_iso)) =
    Some (Some 5) /\
  priority <$> last (state_tasks (add_task state ttl (-3) uid now_iso)) =
    Some (Some 1).
Proof.
  split; [eexists; split; [apply add_task_tasks|reflexivity]|].
  split; [apply clamp_priority_range|].
  rewrite !add_task_tasks, !last_snoc. unfold clamp_priority.
  repeat split; lia.
Qed.

Lemma add_task_clamps_priority_witness :
  clamp_priority 4 = 4 /\ clamp_priority 0 = 1 /\ clamp_priority 6 = 5.
Proof.
  pose proof (add_task_clamps_priority seeded_state "Buy milk" 4 "0123456789"
                sample_created) as (_ & _ & H4 & _).
  pose proof (add_task_clamps_priority seeded_state "Buy milk" 0 "0123456789"
                sample_created) as (_ & _ & _ & H0 & _).
  pose proof (add_task_clamps_priority seeded_state "Buy milk" 6 "0123456789"
                sample_created) as (_ & _ & _ & _ & H6 & _).
  split; [apply H4; lia|]. split; [apply H0; lia|apply H6; lia].
Defined.

Lemma blank_not_truthy (s : string) : str_truthy s = false <-> s = "".
Proof. destruct s; simpl; split; congruence. Qed.

Lemma strip_nonempty_truthy (s : string) : strip s <> "" -> str_truthy s = true.
Proof. destruct s; simpl; [intros H; now destruct H|reflexivity]. Qed.

(** The terminal editor adds nothing for a title that is blank once
    trimmed, and one pending task otherwise. *)
Lemma tui_add_blank (state : State) (typed : string) (prio : Z)
    (uid now_iso : string) :
  strip typed = "" -> tui_add state typed prio uid now_iso = (false, state).
Proof. unfold tui_add. now intros ->. Qed.

Lemma tui_add_nonblank (state : State) (typed : string) (prio : Z)
    (uid now_iso : string) :
  strip typed <> "" ->
  tui_add state typed prio uid now_iso =
  (true, add_task state (strip typed) prio uid now_iso).
Proof.
  unfold tui_add. intros Hne.
  destruct (str_truthy (strip typed)) eqn:E; [reflexivity|].
  now apply blank_not_truthy in E.
Qed.

(** So does the launcher menu. *)
Lemma manage_menu_add_blank (state : State) (printed : string) (prio : Z)
    (uid now_iso : string) :
  strip printed = "" ->
  manage_menu_add state (Some printed) prio uid now_iso = (false, state).
Proof. unfold manage_menu_add. simpl. now intros ->. Qed.

Lemma manage_menu_add_nonblank (state : State) (printed : string) (prio : Z)
    (uid now_iso : string) :
  strip printed <> "" ->
  manage_menu_add state (Some printed) prio uid now_iso =
  (true, add_task state (strip printed) prio uid now_iso).
Proof.
  unfold manage_menu_add. simpl. intros Hne.
  destruct (str_truthy (strip printed)) eqn:E; [reflexivity|].
  now apply blank_not_truthy in E.
Qed.

(** The command line adds one pending task for a title that is not blank
    once trimmed, and nothing for an empty or absent title. *)
Lemma main_add_nonblank (state : State) (ttl : string) (prio : Z)
    (uid now_iso : string) :
  strip ttl <> "" ->
  main_add state (Some ttl) prio uid now_iso =
  (true, add_task state ttl prio uid now_iso).
Proof.
  unfold main_add. intros Hne. now rewrite strip_nonempty_truthy.
Qed.

Lemma main_add_empty (state : State) (prio : Z) (uid now_iso : string) :
  main_add state (Some "") prio uid now_iso = (false, state) /\
  main_add state None prio uid now_iso = (false, state).
Proof. split; reflexivity. Qed.

(** C2, where the code departs from it.  The title of two spaces is blank
    once trimmed; the terminal editor and the launcher menu add nothing for
    it, but the command line tests the title before it is trimmed: it
    reports a change and [add_task] stores one more task, whose title is
    empty. *)
Theorem main_add_blank_title (state : State) (prio : Z)
    (uid now_iso : string) :
  strip "  " = "" /\
  tui_add state "  " prio uid now_iso = (false, state) /\
  manage_menu_add state (Some "  ") prio uid now_iso = (false, state) /\
  (main_add state (Some "  ") prio uid now_iso).1 = true /\
  state_tasks (main_add state (Some "  ") prio uid now_iso).2 =
    (state_tasks state ++
     [mkTask (Some uid) (Some "") (Some (clamp_priority prio)) (Some false)
             (Some now_iso)])%list /\
  length (state_tasks (main_add state (Some "  ") prio uid now_iso).2) =
    S (length (state_tasks state)).
Proof.
  do 5 (split; [reflexivity|]).
  change (main_add state (Some "  ") prio uid now_iso).2
    with (add_task state "  " prio uid now_iso).
  rewrite add_task_tasks, length_app. simpl. lia.
Qed.

(** ** The state store *)

Section StoreFacts.
Context (home : string).
Context (json_loads : string -> option Parsed).
Context (json_dumps : State -> string).
Context (created_quickstart created_manage : string).

Abbreviation data_file := (DATA_FILE home).
Abbreviation tmp_file := (DATA_DIR home, "tasks.tmp").
Abbreviation backup_file := (DATA_DIR home, "tasks.json.bak").
Abbreviation seeds := (default_state created_quickstart created_manage).

Lemma tmp_file_path : with_suffix data_file ".tmp" = tmp_file.
Proof. reflexivity. Qed.

Lemma backup_file_path :
  with_suffix data_file (suffix data_file ++ ".bak") = backup_file.
Proof. reflexivity. Qed.

Lemma backup_file_name : backup_file = (data_file.1, data_file.2 ++ ".bak").
Proof. reflexivity. Qed.

Lemma save_state_run (state : State) (fs : FS) :
  exists fs',
    save_state home json_dumps state fs = (fs', inr tt) /\
    files fs' !! data_file = Some (json_dumps state) /\
    files fs' !! tmp_file = None /\
    forall p, p <> data_file -> p <> tmp_file ->
              files fs' !! p = files fs !! p.
Proof.
  unfold save_state, ensure_data_dir, mkdir, io_bind.
  rewrite tmp_file_path. unfold write_text. simpl.
  rewrite bool_decide_eq_true_2 by set_solver.
  unfold rename. simpl. rewrite lookup_insert_eq.
  eexists. split; [reflexivity|]. simpl. split; [|split].
  - apply lookup_insert_eq.
  - rewrite lookup_insert_ne by (unfold DATA_FILE; congruence).
    apply lookup_delete_eq.
  - intros p Hd Ht.
    rewrite lookup_insert_ne, lookup_delete_ne, lookup_insert_ne; congruence.
Qed.

Lemma load_state_fresh (fs : FS) :
  files fs !! data_file = None ->
  exists fs',
    load_state home json_loads json_dumps created_quickstart created_manage fs
      = (fs', inr seeds) /\
    files fs' !! data_file = Some (json_dumps seeds).
Proof.
  intros Hnone. unfold load_state, ensure_data_dir, mkdir, io_bind at 1 2.
  unfold path_exists. simpl. rewrite Hnone.
  rewrite bool_decide_eq_false_2 by (intros [? ?]; discriminate). simpl.
  unfold io_bind.
  destruct (save_state_run seeds
              (mkFS ({[DATA_DIR home]} ∪ dirs fs) (files fs)))
    as (fs' & -> & Hfile & _).
  now exists fs'.
Qed.

Lemma backup_and_reset_run (fs : FS) (txt : string) :
  files fs !! data_file = Some txt ->
  exists fs',
    (rename data_file (with_suffix data_file (suffix data_file ++ ".bak")) ;;;
     save_state home json_dumps seeds ;;;
     io_ret seeds) fs = (fs', inr seeds) /\
    files fs' !! backup_file = Some txt /\
    files fs' !! data_file = Some (json_dumps seeds).
Proof.
  intros Hsome. rewrite backup_file_path.
  unfold io_bind at 1, rename at 1. rewrite Hsome. unfold io_bind.
  match goal with |- context [save_state _ _ _ ?f] =>
    destruct (save_state_run seeds f) as (fs' & -> & Hfile & _ & Hother)
  end.
  exists fs'. split; [reflexivity|]. split; [|exact Hfile].
  rewrite Hother by (unfold DATA_FILE; congruence). simpl.
  apply lookup_insert_eq.
Qed.

Lemma load_state_corrupt (fs : FS) (txt : string) :
  files fs !! data_file = Some txt ->
  json_loads txt = None \/ json_loads txt = Some ParsedOther ->
  exists fs',
    load_state home json_loads json_dumps created_quickstart created_manage fs
      = (fs', inr seeds) /\
    files fs' !! backup_file = Some txt /\
    files fs' !! data_file = Some (json_dumps seeds).
Proof.
  intros Hsome Hbad. unfold load_state, ensure_data_dir, mkdir, io_bind at 1 2.
  unfold path_exists. simpl. rewrite Hsome.
  rewrite bool_decide_eq_true_2 by eauto. simpl.
  unfold try_except, io_bind at 1 2, read_text. simpl. rewrite Hsome.
  unfold loads.
  destruct Hbad as [-> | ->]; simpl; now apply backup_and_reset_run.
Qed.

(** A file that parses to a record is returned with its missing fields
    filled in, and the file system keeps its files. *)
Lemma load_state_valid (fs : FS) (txt : string) (raw : State) :
  files fs !! data_file = Some txt ->
  json_loads txt = Some (ParsedDict raw) ->
  exists fs',
    load_state home json_loads json_dumps created_quickstart created_manage fs
      = (fs', inr (setdefaults raw)) /\
    files fs' = files fs.
Proof.
  intros Hsome Hok. unfold load_state, ensure_data_dir, mkdir, io_bind at 1 2.
  unfold path_exists. simpl. rewrite Hsome.
  rewrite bool_decide_eq_true_2 by eauto. simpl.
  unfold try_except, io_bind at 1 2, read_text. simpl. rewrite Hsome.
  unfold loads. rewrite Hok. simpl. eexists. split; reflexivity.
Qed.

End StoreFacts.

(** C6. When the state file holds text that does not parse, or parses to
    something other than a record, [load_state] raises nothing: it moves the
    file to the name with [.bak] appended ([tasks.json.bak]), writes the
    default state and returns it.  When there is no state file it writes and
    returns the default state as well.  The default state holds the two seed
    tasks and [show_index] 0. *)
Theorem load_state_recovers (home : string)
    (json_loads : string -> option Parsed) (json_dumps : State -> string)
    (created_quickstart created_manage : string) (fs : FS) :
  let data_file := DATA_FILE home in
  let backup := (data_file.1, data_file.2 ++ ".bak") in
  let seeds := default_state created_quickstart created_manage in
  let load :=
    load_state home json_loads json_dumps created_quickstart created_manage in
  (forall txt,
     files fs !! data_file = Some txt ->
     json_loads txt = None \/ json_loads txt = Some ParsedOther ->
     exists fs',
       load fs = (fs', inr seeds) /\
       files fs' !! backup = Some txt /\
       files fs' !! data_file = Some (json_dumps seeds)) /\
  (files fs !! data_file = None ->
   exists fs',
     load fs = (fs', inr seeds) /\
     files fs' !! data_file = Some (json_dumps seeds)) /\
  with_suffix data_file (suffix data_file ++ ".bak") = backup /\
  seeds =
    mkState
      (Some [mkTask (Some "seed-quickstart") (Some "Part 6") (Some 1)
                    (Some false) (Some created_quickstart);
             mkTask (Some "seed-manage") (Some "Right click to edit or add")
                    (Some 3) (Some false) (Some created_manage)])
      (Some 0).
Proof.
  intros data_file backup seeds load. subst data_file backup seeds load.
  split; [|split; [|split; reflexivity]].
  - intros txt. apply load_state_corrupt.
  - apply load_state_fresh.
Qed.

Lemma load_state_recovers_witness :
  (exists fs',
     load_state sample_home sample_loads sample_dumps sample_created
                sample_created (fs_with "{oops") = (fs', inr seeded_state) /\
     files fs' !! (DATA_DIR sample_home, "tasks.json.bak") = Some "{oops" /\
     files fs' !! DATA_FILE sample_home = Some "{}") /\
  (exists fs',
     load_state sample_home sample_loads sample_dumps sample_created
                sample_created (fs_with "[]") = (fs', inr seeded_state) /\
     files fs' !! (DATA_DIR sample_home, "tasks.json.bak") = Some "[]" /\
     files fs' !! DATA_FILE sample_home = Some "{}") /\
  (exists fs',
     load_state sample_home sample_loads sample_dumps sample_created
                sample_created (mkFS ∅ ∅) = (fs', inr seeded_state) /\
     files fs' !! DATA_FILE sample_home = Some "{}").
Proof.
  split; [|split].
  - destruct (load_state_recovers sample_home sample_loads sample_dumps
                sample_created sample_created (fs_with "{oops")) as [H _].
    apply (H "{oops").
    + apply lookup_singleton_eq.
    + left. reflexivity.
  - destruct (load_state_recovers sample_home sample_loads sample_dumps
                sample_created sample_created (fs_with "[]")) as [H _].
    apply (H "[]").
    + apply lookup_singleton_eq.
    + right. reflexivity.
  - destruct (load_state_recovers sample_home sample_loads sample_dumps
                sample_created sample_created (mkFS ∅ ∅)) as (_ & H & _).
    apply H. apply lookup_empty.
Defined.

(** * Further properties of the program *)

(** ** [clear_completed] *)

Lemma pending_filter_idem (ts : list Task) :
  List.filter (fun t => negb (truthy (done t)))
    (List.filter (fun t => negb (truthy (done t))) ts) =
  List.filter (fun t => negb (truthy (done t))) ts.
Proof.
  induction ts as [|t r IH]; simpl; [reflexivity|].
  destruct (negb (truthy (done t))) eqn:E; simpl; rewrite ?E, IH; reflexivity.
Qed.

Lemma pending_tasks_clear_completed (state : State) :
  pending_tasks (clear_completed state) = pending_tasks state.
Proof. apply pending_filter_idem. Qed.

(** X1. [clear_completed] keeps exactly the tasks that are not done, in the
    order they had, and leaves [show_index] alone; clearing twice is
    clearing once; when every task is done the collection becomes empty. *)
Theorem clear_completed_spec (state : State) :
  tasks (clear_completed state) = Some (pending_tasks state) /\
  (forall t, In t (state_tasks (clear_completed state)) <->
             In t (state_tasks state) /\ truthy (done t) = false) /\
  show_index (clear_completed state) = show_index state /\
  clear_completed (clear_completed state) = clear_completed state /\
  ((forall t, In t (state_tasks state) -> truthy (done t) = true) ->
   tasks (clear_completed state) = Some []).
Proof.
  split; [reflexivity|]. split; [|split; [reflexivity|split]].
  - intros t. unfold clear_completed, state_tasks at 1. simpl.
    rewrite filter_In, negb_true_iff. reflexivity.
  - unfold clear_completed at 1 3. simpl. f_equal. f_equal.
    apply pending_filter_idem.
  - intros Hall. unfold clear_completed. simpl. f_equal.
    now apply all_done_no_pending.
Qed.

Lemma clear_completed_spec_witness :
  tasks (clear_completed all_done_state) = Some [].
Proof.
  apply (clear_completed_spec all_done_state).
  intros t [<-|[]]. reflexivity.
Defined.

(** X2. Clearing the completed tasks changes nothing of what is displayed:
    the pending tasks and the task selected at every time are the same.
    The display pool afterwards holds the pending tasks only, so its
    fallback shows nothing once the completed tasks are gone. *)
Theorem clear_completed_display (state : State) (now : Q) :
  pending_tasks (clear_completed state) = pending_tasks state /\
  get_display_task (clear_completed state) now = get_display_task state now /\
  next_display_pool (clear_completed state) =
    sorted_tasks (pending_tasks state).
Proof.
  split; [apply pending_tasks_clear_completed|]. split.
  - unfold get_display_task. now rewrite pending_tasks_clear_completed.
  - unfold next_display_pool. rewrite pending_tasks_clear_completed.
    change (state_tasks (clear_completed state)) with (pending_tasks state).
    now destruct (sorted_tasks (pending_tasks state)).
Qed.

(** ** [delete_task] *)

Lemma filter_length_lt {A} (p : A -> bool) (l : list A) :
  (length (List.filter p l) <? length l)%nat = true <->
  exists x, In x l /\ p x = false.
Proof.
  rewrite Nat.ltb_lt. induction l as [|a r IH]; simpl.
  - split; [lia|now intros (x & [] & _)].
  - pose proof (List.filter_length_le p r) as Hle.
    destruct (p a) eqn:E; simpl.
    + rewrite <- Nat.succ_lt_mono, IH. split.
      * intros (x & Hx & Hp). exists x. split; [now right|exact Hp].
      * intros (x & [<-|Hx] & Hp); [congruence|now exists x].
    + split; [|lia]. intros _. exists a. split; [now left|exact E].
Qed.

Lemma filter_all_true {A} (p : A -> bool) (l : list A) :
  (forall x, In x l -> p x = true) -> List.filter p l = l.
Proof.
  induction l as [|a r IH]; simpl; [reflexivity|]. intros Hall.
  rewrite (Hall a) by now left. f_equal. apply IH. intros x Hx.
  apply Hall. now right.
Qed.

(** X3. [delete_task] returns true exactly when some task has the given
    id.  It removes every task with that id, not only the first, and keeps
    all the others; when it returns false the task list is the one it
    was.  The state has a task list afterwards even when it had none. *)
Theorem delete_task_spec (state : State) (tid : string) :
  ((delete_task state tid).1 = true <->
   exists t, In t (state_tasks state) /\ task_id t = Some tid) /\
  (forall t, In t (state_tasks (delete_task state tid).2) <->
             In t (state_tasks state) /\ task_id t <> Some tid) /\
  ((delete_task state tid).1 = false ->
   state_tasks (delete_task state tid).2 = state_tasks state) /\
  is_Some (tasks (delete_task state tid).2) /\
  show_index (delete_task state tid).2 = show_index state.
Proof.
  unfold delete_task. simpl. split; [|split; [|split; [|split]]].
  - rewrite filter_length_lt. split; intros (t & Hin & Hid); exists t;
      (split; [exact Hin|]).
    + apply negb_false_iff, bool_decide_eq_true in Hid. exact Hid.
    + now apply negb_false_iff, bool_decide_eq_true.
  - intros t. unfold state_tasks at 1. simpl.
    rewrite filter_In, negb_true_iff, bool_decide_eq_false. reflexivity.
  - intros Hno. unfold state_tasks at 1. simpl. apply filter_all_true.
    intros x Hx. destruct (negb (bool_decide (task_id x = Some tid))) eqn:E;
      [reflexivity|].
    assert (Hlt : (length (List.filter
                     (fun t => negb (bool_decide (task_id t = Some tid)))
                     (state_tasks state)) <? length (state_tasks state))%nat
                  = true) by (apply filter_length_lt; now exists x).
    congruence.
  - eauto.
  - reflexivity.
Qed.

Lemma delete_task_spec_witness :
  (delete_task seeded_state "seed-manage").1 = true /\
  state_tasks (delete_task seeded_state "no-such-id").2 =
    state_tasks seeded_state.
Proof.
  split.
  - apply (delete_task_spec seeded_state "seed-manage").
    eexists. split; [right; left; reflexivity|reflexivity].
  - apply (delete_task_spec seeded_state "no-such-id"). reflexivity.
Defined.

(** ** [toggle_task], again *)

Lemma flip_done_twice (t : Task) :
  flip_done (flip_done t) =
  mkTask (task_id t) (title t) (priority t) (Some (truthy (done t)))
         (created t).
Proof. unfold flip_done. simpl. now rewrite negb_involutive. Qed.

(** X4. Toggling the same id twice gives the task its completion back:
    the second call succeeds when the first did, it reaches the same task,
    and the state is the first one with that task's [done] field written
    out as a boolean; it is the first state itself when the field was
    there. *)
Theorem toggle_task_twice (state : State) (tid : string) :
  (toggle_task state tid).1 = true ->
  (toggle_task (toggle_task state tid).2 tid).1 = true /\
  exists before t after,
    tasks state = Some (before ++ t :: after)%list /\
    (forall u, In u before -> task_id u <> Some tid) /\
    task_id t = Some tid /\
    (toggle_task (toggle_task state tid).2 tid).2 =
      mkState (Some (before ++
                     mkTask (task_id t) (title t) (priority t)
                            (Some (truthy (done t))) (created t)
                     :: after)%list)
              (show_index state) /\
    (is_Some (done t) ->
     (toggle_task (toggle_task state tid).2 tid).2 = state).
Proof.
  intros Hb. pose proof (toggle_task_snd _ _ Hb) as Hst.
  rewrite toggle_task_fst in Hb.
  destruct (toggle_loop_true _ _ Hb)
    as (before & t & after & E & Hbefore & Hid & Hloop).
  rewrite Hloop in Hst. rewrite Hst.
  assert (Hsome : tasks state = Some (before ++ t :: after)%list).
  { unfold state_tasks in E. destruct (tasks state) as [ts|]; simpl in E.
    - now rewrite E.
    - now destruct before. }
  assert (Hagain :
    toggle_task
      (mkState (Some (before ++ flip_done t :: after)%list) (show_index state))
      tid =
    (true,
     mkState (Some (before ++ flip_done (flip_done t) :: after)%list)
             (show_index state))).
  { unfold toggle_task. simpl.
    now rewrite
      (toggle_loop_first before after (flip_done t) tid Hbefore Hid). }
  rewrite Hagain. simpl. split; [reflexivity|]. exists before, t, after.
  rewrite flip_done_twice. repeat split; try assumption.
  intros [b Hdone]. destruct state as [ts idx]. simpl in *. rewrite Hsome.
  do 4 f_equal. destruct t. simpl in *. now subst.
Qed.

Lemma toggle_task_twice_witness :
  (toggle_task (toggle_task seeded_state "seed-manage").2 "seed-manage").2 =
  seeded_state.
Proof.
  assert (Hb : (toggle_task seeded_state "seed-manage").1 = true)
    by reflexivity.
  destruct (toggle_task_twice seeded_state "seed-manage" Hb)
    as (_ & before & t & after & E & _ & _ & _ & Hback).
  apply Hback.
  destruct before as [|a [|b before]]; simpl in E;
    inversion E; subst; eauto.
  now destruct before.
Defined.

(** ** [toggle_current_display_task] *)

Lemma NoDup_map_In_eq {A B} (f : A -> B) (l : list A) (a b : A) :
  NoDup (List.map f l) -> In a l -> In b l -> f a = f b -> a = b.
Proof.
  induction l as [|x r IH]; simpl; [now intros _ []|].
  intros Hnd Ha Hb Hf. apply NoDup_cons in Hnd. destruct Hnd as [Hx Hnd].
  rewrite list_elem_of_In in Hx.
  destruct Ha as [<-|Ha], Hb as [<-|Hb]; [reflexivity| | |now apply IH].
  - exfalso. apply Hx. rewrite Hf. now apply in_map.
  - exfalso. apply Hx. rewrite <- Hf. now apply in_map.
Qed.

Lemma pending_length_flip (before after : list Task) (t : Task) :
  truthy (done t) = false ->
  (length (List.filter (fun u => negb (truthy (done u)))
             (before ++ flip_done t :: after)) + 1)%nat =
  length (List.filter (fun u => negb (truthy (done u)))
            (before ++ t :: after)).
Proof.
  intros Hp. rewrite !List.filter_app, !length_app. simpl.
  rewrite Hp. simpl. lia.
Qed.

(** X5. [toggle_current_display_task] returns false and leaves the state
    alone when no task is pending.  On a task list with unique ids and a
    pending task it returns true: the task displayed at that time is
    marked done, nothing else changes, and one task fewer is pending. *)
Theorem toggle_current_display_task_spec (state : State) (now : Q) :
  (pending_tasks state = [] ->
   toggle_current_display_task state now = Some (false, state)) /\
  (ids_unique (state_tasks state) -> pending_tasks state <> [] ->
   exists t before after state',
     get_display_task state now = Some t /\
     state_tasks state = (before ++ t :: after)%list /\
     toggle_current_display_task state now = Some (true, state') /\
     state' = mkState (Some (before ++ flip_done t :: after)%list)
                      (show_index state) /\
     done (flip_done t) = Some true /\
     (length (pending_tasks state') + 1)%nat = length (pending_tasks state)).
Proof.
  split.
  - intros Hp. unfold toggle_current_display_task.
    rewrite (proj2 (get_display_task_None state now)); [reflexivity|].
    now rewrite Hp.
  - intros [Hids Hnd] Hp.
    destruct (get_display_task state now) as [t|] eqn:Ht.
    2:{ apply (proj1 (get_display_task_None state now)) in Ht.
        apply (proj1 (sorted_tasks_nil _)) in Ht. contradiction. }
    pose proof (get_display_task_In _ _ _ Ht) as Hin.
    apply filter_In in Hin. destruct Hin as [Hin Hpend].
    apply negb_true_iff in Hpend.
    rewrite Forall_forall in Hids.
    destruct (Hids t (proj2 (list_elem_of_In _ _) Hin)) as [tid Hid].
    assert (Hb : (toggle_task state tid).1 = true).
    { apply toggle_task_true_iff. now exists t. }
    pose proof (toggle_task_snd _ _ Hb) as Hst.
    rewrite toggle_task_fst in Hb.
    destruct (toggle_loop_true _ _ Hb)
      as (before & t' & after & E & _ & Hid' & Hloop).
    assert (t' = t) as ->.
    { apply (NoDup_map_In_eq task_id (state_tasks state)); try assumption.
      - rewrite E. apply in_or_app. right. now left.
      - congruence. }
    exists t, before, after, (toggle_task state tid).2.
    split; [reflexivity|]. split; [exact E|]. split.
    + unfold toggle_current_display_task, task_truthy. rewrite Ht, Hid.
      cbn [negb].
      rewrite (surjective_pairing (toggle_task state tid)) at 1.
      rewrite toggle_task_fst, Hb. reflexivity.
    + rewrite Hst, Hloop. split; [reflexivity|]. split.
      * unfold flip_done. simpl. now rewrite Hpend.
      * unfold pending_tasks, state_tasks at 1. simpl. rewrite E.
        now apply pending_length_flip.
Qed.

Lemma toggle_current_display_task_spec_witness :
  toggle_current_display_task all_done_state (7 # 2) =
    Some (false, all_done_state) /\
  exists state',
    toggle_current_display_task seeded_state (7 # 2) = Some (true, state') /\
    length (pending_tasks state') = 1%nat.
Proof.
  split.
  - now apply (toggle_current_display_task_spec all_done_state (7 # 2)).
  - destruct (toggle_current_display_task_spec seeded_state (7 # 2))
      as [_ H].
    destruct H as (t & before & after & state' & _ & _ & Hr & _ & _ & Hlen).
    + split.
      * repeat constructor; eauto.
      * simpl. repeat constructor; rewrite ?list_elem_of_In; simpl;
          intuition discriminate.
    + discriminate.
    + exists state'. split; [exact Hr|]. simpl in Hlen. lia.
Defined.

(** ** [cycle_task] *)

Lemma next_display_pool_same_tasks (a b : State) :
  tasks a = tasks b -> next_display_pool a = next_display_pool b.
Proof.
  intros H. unfold next_display_pool, pending_tasks, state_tasks.
  now rewrite H.
Qed.

Lemma cycle_task_tasks (state : State) :
  tasks (cycle_task state) = tasks state.
Proof. unfold cycle_task. now destruct (next_display_pool state). Qed.

Lemma iter_cycle_task_tasks (k : nat) (state : State) :
  tasks (Nat.iter k cycle_task state) = tasks state.
Proof.
  induction k as [|k IH]; simpl; [reflexivity|].
  now rewrite cycle_task_tasks.
Qed.

Lemma cycle_task_index (state : State) :
  next_display_pool state <> [] ->
  show_index (cycle_task state) =
  Some ((dict_get (show_index state) 0 + 1)
        mod Z.of_nat (length (next_display_pool state))).
Proof.
  unfold cycle_task. now destruct (next_display_pool state).
Qed.

(** X6. [cycle_task] never touches the tasks.  It leaves a cursor that is 0
    for an empty display pool and lies within the pool otherwise, whatever
    was stored before (nothing, a negative or a too large number); [k]
    calls move the cursor by [k] around the pool, so as many calls as the
    pool has tasks bring a cursor in range back to where it was. *)
Theorem cycle_task_spec (state : State) :
  let n := Z.of_nat (length (next_display_pool state)) in
  tasks (cycle_task state) = tasks state /\
  (next_display_pool state = [] -> show_index (cycle_task state) = Some 0) /\
  (next_display_pool state <> [] ->
   exists i, show_index (cycle_task state) = Some i /\ 0 <= i < n) /\
  (next_display_pool state <> [] ->
   forall k, (0 < k)%nat ->
     show_index (Nat.iter k cycle_task state) =
     Some ((dict_get (show_index state) 0 + Z.of_nat k) mod n)) /\
  (next_display_pool state <> [] ->
   forall i, show_index state = Some i -> 0 <= i < n ->
     show_index (Nat.iter (length (next_display_pool state)) cycle_task state)
     = Some i).
Proof.
  intros n. subst n.
  assert (Hpos : next_display_pool state <> [] ->
                 0 < Z.of_nat (length (next_display_pool state))).
  { destruct (next_display_pool state); [congruence|simpl; lia]. }
  assert (Hiter : next_display_pool state <> [] ->
    forall k, (0 < k)%nat ->
      show_index (Nat.iter k cycle_task state) =
      Some ((dict_get (show_index state) 0 + Z.of_nat k)
            mod Z.of_nat (length (next_display_pool state)))).
  { intros Hne k Hk. induction k as [|k IH]; [lia|]. simpl.
    assert (Hpool : next_display_pool (Nat.iter k cycle_task state) =
                    next_display_pool state)
      by apply next_display_pool_same_tasks, iter_cycle_task_tasks.
    rewrite cycle_task_index by now rewrite Hpool.
    rewrite Hpool. f_equal. destruct k as [|k].
    - simpl. reflexivity.
    - rewrite IH by lia. simpl dict_get. rewrite Zplus_mod_idemp_l.
      f_equal. lia. }
  split; [apply cycle_task_tasks|]. split; [|split; [|split]].
  - intros Hnil. unfold cycle_task. now rewrite Hnil.
  - intros Hne. eexists. split; [now apply cycle_task_index|].
    apply Z.mod_pos_bound, Hpos, Hne.
  - exact Hiter.
  - intros Hne i Hi Hrange. rewrite Hiter; [|exact Hne|].
    + rewrite Hi. simpl. f_equal.
      rewrite <- (Z.mul_1_l (Z.of_nat (length (next_display_pool state))))
        at 1.
      rewrite Z.mod_add by lia. now apply Z.mod_small.
    + destruct (next_display_pool state); [congruence|simpl; lia].
Qed.

Lemma cycle_task_spec_witness :
  show_index (cycle_task (cycle_task seeded_state)) = Some 0 /\
  show_index (cycle_task all_done_state) = Some 0.
Proof.
  destruct (cycle_task_spec seeded_state) as (_ & _ & _ & _ & Hround).
  destruct (cycle_task_spec all_done_state) as (_ & _ & Hin & _).
  split.
  - apply (Hround ltac:(discriminate) 0 eq_refl). simpl. lia.
  - destruct (Hin ltac:(discriminate)) as (i & -> & Hi). simpl in Hi.
    f_equal. lia.
Defined.

(** ** [add_task], again *)

(** X7. After [add_task] there is always a task to display: the new task is
    pending, it joins the pending tasks that were there, and
    [get_display_task] returns a task at every time.  [show_index] is
    kept. *)
Theorem add_task_display (state : State) (ttl : string) (prio : Z)
    (uid now_iso : string) (now : Q) :
  let state' := add_task state ttl prio uid now_iso in
  let new := mkTask (Some uid) (Some (strip ttl)) (Some (clamp_priority prio))
                    (Some false) (Some now_iso) in
  pending_tasks state' = (pending_tasks state ++ [new])%list /\
  is_Some (get_display_task state' now) /\
  next_display_pool state' = sorted_tasks (pending_tasks state') /\
  show_index state' = show_index state.
Proof.
  intros state' new.
  assert (Hp : pending_tasks state' = (pending_tasks state ++ [new])%list).
  { unfold pending_tasks. subst state'. rewrite add_task_tasks.
    now rewrite List.filter_app. }
  assert (Hne : sorted_tasks (pending_tasks state') <> []).
  { rewrite sorted_tasks_nil, Hp. now destruct (pending_tasks state). }
  split; [exact Hp|]. split; [|split; [|reflexivity]].
  - destruct (get_display_task state' now) eqn:E; [eauto|].
    now apply get_display_task_None in E.
  - now apply next_display_pool_pending.
Qed.

(** X8. A task added under an id that no task had can be addressed by that
    id at once: deleting it gives back the task list as it was, and
    toggling it marks the new task, and no other, done. *)
Theorem add_task_then_by_id (state : State) (ttl : string) (prio : Z)
    (uid now_iso : string) :
  (forall t, In t (state_tasks state) -> task_id t <> Some uid) ->
  let state' := add_task state ttl prio uid now_iso in
  delete_task state' uid =
    (true, mkState (Some (state_tasks state)) (show_index state)) /\
  toggle_task state' uid =
    (true,
     mkState (Some (state_tasks state ++
                    [mkTask (Some uid) (Some (strip ttl))
                            (Some (clamp_priority prio)) (Some true)
                            (Some now_iso)])%list)
             (show_index state)).
Proof.
  intros Hfresh state'. subst state'. split.
  - unfold delete_task. rewrite add_task_tasks.
    rewrite List.filter_app, length_app. simpl.
    rewrite bool_decide_eq_true_2 by reflexivity. simpl.
    rewrite app_nil_r, filter_all_true.
    + f_equal. apply Nat.ltb_lt. rewrite length_app. simpl. lia.
    + intros x Hx. apply negb_true_iff, bool_decide_eq_false. now apply Hfresh.
  - unfold toggle_task, add_task. simpl.
    rewrite (toggle_loop_first (state_tasks state) []
               (mkTask (Some uid) (Some (strip ttl))
                       (Some (clamp_priority prio)) (Some false)
                       (Some now_iso)) uid Hfresh eq_refl).
    reflexivity.
Qed.

Lemma add_task_then_by_id_witness :
  delete_task (add_task seeded_state " Buy milk " 9 "0123456789" sample_created)
              "0123456789" =
  (true, seeded_state).
Proof.
  apply (add_task_then_by_id seeded_state " Buy milk " 9 "0123456789"
           sample_created).
  intros t [<-|[<-|[]]]; discriminate.
Defined.

(** ** What the mutations keep *)

Lemma toggle_task_tasks (state : State) (tid : string) :
  state_tasks (toggle_task state tid).2 =
  (toggle_loop (state_tasks state) tid).2.
Proof.
  destruct state as [[ts|] idx]; unfold toggle_task, state_tasks; simpl;
    [|reflexivity].
  now destruct (toggle_loop ts tid).
Qed.

Lemma toggle_loop_Forall (P : Task -> Prop) (ts : list Task) (tid : string) :
  (forall t, P t -> P (flip_done t)) ->
  Forall P ts -> Forall P (toggle_loop ts tid).2.
Proof.
  intros Hflip. induction 1 as [|t r Ht Hr IH]; simpl; [constructor|].
  case_bool_decide; simpl.
  - constructor; [now apply Hflip|exact Hr].
  - destruct (toggle_loop r tid) as [b r']. simpl in *. now constructor.
Qed.

Lemma toggle_loop_ids (ts : list Task) (tid : string) :
  List.map task_id (toggle_loop ts tid).2 = List.map task_id ts.
Proof.
  induction ts as [|t r IH]; simpl; [reflexivity|].
  case_bool_decide; simpl; [reflexivity|].
  destruct (toggle_loop r tid) as [b r']. simpl in *. now rewrite IH.
Qed.

Lemma Forall_filter_keeps {A} (P : A -> Prop) (p : A -> bool) (l : list A) :
  Forall P l -> Forall P (List.filter p l).
Proof.
  induction 1 as [|x r Hx Hr IH]; simpl; [constructor|].
  destruct (p x); [now constructor|exact IH].
Qed.

Lemma NoDup_map_filter {A B} (f : A -> B) (p : A -> bool) (l : list A) :
  NoDup (List.map f l) -> NoDup (List.map f (List.filter p l)).
Proof.
  induction l as [|x r IH]; simpl; [trivial|].
  intros Hnd. apply NoDup_cons in Hnd. destruct Hnd as [Hx Hnd].
  destruct (p x); simpl; [|now apply IH].
  apply NoDup_cons. split; [|now apply IH].
  rewrite list_elem_of_In in *. intros Hin. apply Hx.
  apply in_map_iff in Hin. destruct Hin as (y & Hy & Hin).
  apply filter_In in Hin. apply in_map_iff. exists y. tauto.
Qed.

(** X9. The mutations keep the priorities in range: when every task has a
    priority between 1 and 5, so has every task after [add_task] (with any
    priority argument), [toggle_task], [clear_completed], [delete_task],
    [cycle_task] and [reset_cycle]. *)
Theorem priorities_valid_kept (state : State) :
  priorities_valid (state_tasks state) ->
  (forall ttl prio uid now_iso,
     priorities_valid (state_tasks (add_task state ttl prio uid now_iso))) /\
  (forall tid, priorities_valid (state_tasks (toggle_task state tid).2)) /\
  priorities_valid (state_tasks (clear_completed state)) /\
  (forall tid, priorities_valid (state_tasks (delete_task state tid).2)) /\
  priorities_valid (state_tasks (cycle_task state)) /\
  priorities_valid (state_tasks (reset_cycle state)).
Proof.
  unfold priorities_valid. intros Hv. repeat split.
  - intros ttl prio uid now_iso. rewrite add_task_tasks.
    apply Forall_app. split; [exact Hv|]. repeat constructor.
    eexists. split; [reflexivity|apply clamp_priority_range].
  - intros tid. rewrite toggle_task_tasks.
    apply toggle_loop_Forall; [|exact Hv]. now intros t.
  - now apply Forall_filter_keeps.
  - intros tid. now apply Forall_filter_keeps.
  - unfold state_tasks. now rewrite cycle_task_tasks.
  - exact Hv.
Qed.

Lemma priorities_valid_kept_witness :
  priorities_valid
    (state_tasks (add_task seeded_state "Buy milk" 42 "0123456789"
                           sample_created)).
Proof.
  apply (priorities_valid_kept seeded_state).
  repeat constructor; eexists; (split; [reflexivity|simpl; lia]).
Defined.

(** X10. The mutations keep the ids: when every task has an id and no two
    tasks share one, this is so after [toggle_task], [clear_completed] and
    [delete_task], and after [add_task] when the new id is not in use. *)
Theorem ids_unique_kept (state : State) :
  ids_unique (state_tasks state) ->
  (forall tid, ids_unique (state_tasks (toggle_task state tid).2)) /\
  ids_unique (state_tasks (clear_completed state)) /\
  (forall tid, ids_unique (state_tasks (delete_task state tid).2)) /\
  (forall ttl prio uid now_iso,
     (forall t, In t (state_tasks state) -> task_id t <> Some uid) ->
     ids_unique (state_tasks (add_task state ttl prio uid now_iso))).
Proof.
  unfold ids_unique. intros [Hid Hnd]. repeat split.
  - rewrite toggle_task_tasks. apply toggle_loop_Forall; [|exact Hid].
    now intros t.
  - now rewrite toggle_task_tasks, toggle_loop_ids.
  - now apply Forall_filter_keeps.
  - now apply NoDup_map_filter.
  - now apply Forall_filter_keeps.
  - now apply NoDup_map_filter.
  - rewrite add_task_tasks. apply Forall_app. split; [exact Hid|].
    repeat constructor. simpl. eauto.
  - rewrite add_task_tasks, map_app. simpl.
    apply NoDup_app. split; [exact Hnd|]. split.
    + intros x Hx Hx'. apply list_elem_of_In in Hx, Hx'.
      destruct Hx' as [<-|[]].
      apply in_map_iff in Hx. destruct Hx as (t & Ht & Hin).
      now apply (H t).
    + repeat constructor. now rewrite list_elem_of_In.
Qed.

Lemma ids_unique_kept_witness :
  ids_unique (state_tasks (delete_task seeded_state "seed-manage").2).
Proof.
  apply (ids_unique_kept seeded_state). split.
  - repeat constructor; simpl; eauto.
  - simpl. repeat constructor; rewrite ?list_elem_of_In; simpl;
      intuition discriminate.
Defined.

(** ** The state store, again *)

Lemma save_state_result (home : string) (json_dumps : State -> string)
    (state : State) (fs : FS) :
  save_state home json_dumps state fs =
  (mkFS ({[DATA_DIR home]} ∪ dirs fs)
        (<[DATA_FILE home := json_dumps state]>
           (delete (DATA_DIR home, "tasks.tmp") (files fs))),
   inr tt).
Proof.
  unfold save_state, ensure_data_dir, mkdir, io_bind.
  rewrite tmp_file_path. unfold write_text. simpl.
  rewrite bool_decide_eq_true_2 by set_solver.
  unfold rename. simpl. rewrite lookup_insert_eq. simpl.
  now rewrite delete_insert_eq.
Qed.




(** X12. Saving a state and loading it again gives the state back, with a
    missing [tasks] or [show_index] filled in as [[]] or 0, provided the
    JSON codec reads back what it wrote; a state with both fields comes
    back as it is.  The load does not write: the files are those the save
    left. *)
Theorem save_load_round_trip (home : string)
    (json_loads : string -> option Parsed) (json_dumps : State -> string)
    (created_quickstart created_manage : string) (state : State) (fs : FS) :
  json_loads (json_dumps state) = Some (ParsedDict state) ->
  exists fs1 fs2,
    save_state home json_dumps state fs = (fs1, inr tt) /\
    load_state home json_loads json_dumps created_quickstart created_manage
               fs1 = (fs2, inr (setdefaults state)) /\
    files fs2 = files fs1 /\
    (is_Some (tasks state) -> is_Some (show_index state) ->
     setdefaults state = state).
Proof.
  intros Hcodec. rewrite save_state_result.
  match goal with |- context [(?f, inr tt)] => set (fs1 := f) end.
  assert (Hfile : files fs1 !! DATA_FILE home = Some (json_dumps state))
    by apply lookup_insert_eq.
  destruct (load_state_valid home json_loads json_dumps created_quickstart
              created_manage fs1 _ state Hfile Hcodec) as (fs2 & Hload & Hsame).
  exists fs1, fs2. repeat split; try assumption.
  intros [ts Hts] [idx Hidx]. destruct state as [t i]. simpl in *.
  now subst.
Qed.

Lemma save_load_round_trip_witness :
  exists fs1 fs2,
    save_state sample_home sample_dumps (mkState None None) cluttered_fs
      = (fs1, inr tt) /\
    load_state sample_home sample_loads sample_dumps sample_created
               sample_created fs1 = (fs2, inr (mkState (Some []) (Some 0))).
Proof.
  destruct (save_load_round_trip sample_home sample_loads sample_dumps
              sample_created sample_created (mkState None None) cluttered_fs
              eq_refl) as (fs1 & fs2 & Hsave & Hload & _).
  exists fs1, fs2. split; [exact Hsave|exact Hload].
Defined.



(** X14. A state file that parses to a record is only read: [load_state]
    returns the record with its missing fields filled in, makes no backup
    and changes no file, and a second [load_state] returns the same state
    and leaves the file system as the first one did. *)
Theorem load_state_reads_only (home : string)
    (json_loads : string -> option Parsed) (json_dumps : State -> string)
    (created_quickstart created_manage : string) (fs : FS) (txt : string)
    (raw : State) :
  files fs !! DATA_FILE home = Some txt ->
  json_loads txt = Some (ParsedDict raw) ->
  let load :=
    load_state home json_loads json_dumps created_quickstart created_manage in
  exists fs',
    load fs = (fs', inr (setdefaults raw)) /\
    files fs' = files fs /\
    load fs' = (fs', inr (setdefaults raw)) /\
    tasks (setdefaults raw) = Some (state_tasks raw) /\
    show_index (setdefaults raw) = Some (dict_get (show_index raw) 0).
Proof.
  intros Hsome Hok load. subst load.
  unfold load_state, ensure_data_dir, mkdir, io_bind at 1 2.
  unfold path_exists. simpl. rewrite Hsome.
  rewrite bool_decide_eq_true_2 by eauto. simpl.
  unfold try_except, io_bind at 1 2, read_text. simpl. rewrite Hsome.
  unfold loads. rewrite Hok. simpl. eexists. split; [reflexivity|].
  split; [reflexivity|]. split; [|split; reflexivity].
  unfold io_bind. simpl. rewrite Hsome.
  rewrite bool_decide_eq_true_2 by eauto. simpl. rewrite Hsome, Hok. simpl.
  unfold io_ret. do 2 f_equal.
  rewrite (assoc_L (∪)). now rewrite union_idemp_L.
Qed.

Lemma load_state_reads_only_witness :
  exists fs',
    load_state sample_home sample_loads sample_dumps sample_created
               sample_created (fs_with "{}")
      = (fs', inr (mkState (Some []) (Some 0))) /\
    files fs' = files (fs_with "{}").
Proof.
  destruct (load_state_reads_only sample_home sample_loads sample_dumps
              sample_created sample_created (fs_with "{}") "{}"
              (mkState None None)) as (fs' & Hrun & Hsame & _).
  - apply lookup_singleton_eq.
  - reflexivity.
  - exists fs'. split; [exact Hrun|exact Hsame].
Defined.

(** ** Reading a priority *)

Lemma digits_value_decimal (s : string) (acc : Z) :
  all_chars is_decimal s = true -> 0 <= acc ->
  exists n, digits_value acc s = Some n /\ acc <= n.
Proof.
  revert acc. induction s as [|c r IH]; simpl; intros acc Hall Hacc.
  - exists acc. split; [reflexivity|lia].
  - apply andb_true_iff in Hall. destruct Hall as [Hc Hr]. rewrite Hc.
    destruct (IH (acc * 10 + Z.of_N (N_of_ascii c - 48)) Hr) as (n & Hn & Hle);
      [lia|].
    exists n. split; [exact Hn|lia].
Qed.

Lemma digits_value_not_decimal (s : string) (acc : Z) :
  all_chars is_decimal s = false -> digits_value acc s = None.
Proof.
  revert acc. induction s as [|c r IH]; simpl; intros acc Hall;
    [discriminate|].
  destruct (is_decimal c); simpl in Hall; [now apply IH|reflexivity].
Qed.

Lemma decimal_is_digit (s : string) :
  all_chars is_decimal s = true -> all_chars is_digit s = true.
Proof.
  induction s as [|c r IH]; simpl; [reflexivity|].
  intros H. apply andb_true_iff in H. destruct H as [Hc Hr].
  rewrite (IH Hr). unfold is_digit. rewrite Hc. reflexivity.
Qed.

(** X15. The priority typed into the launcher: a text of decimal digits is
    read as that number, which is not negative; a missing or empty text and
    a text with any character that is no digit (a sign, a space, a letter)
    give 3; a text of digits with a superscript digit in it makes [int]
    raise [ValueError]. *)
Theorem menu_priority_spec (raw : string) :
  menu_priority None = inr 3 /\
  (str_isdigit raw = false -> menu_priority (Some raw) = inr 3) /\
  (raw <> "" -> all_chars is_decimal raw = true ->
   exists n, menu_priority (Some raw) = inr n /\ 0 <= n /\
             digits_value 0 raw = Some n) /\
  (str_isdigit raw = true -> all_chars is_decimal raw = false ->
   menu_priority (Some raw) = inl ValueError).
Proof.
  split; [reflexivity|]. split; [|split].
  - intros H. unfold menu_priority. rewrite H. now rewrite andb_false_r.
  - intros Hne Hdec.
    destruct (digits_value_decimal raw 0 Hdec) as (n & Hn & Hle); [lia|].
    exists n. split; [|split; assumption].
    unfold menu_priority, str_isdigit. rewrite (decimal_is_digit raw Hdec).
    destruct raw as [|c r]; [congruence|]. cbn [str_truthy andb].
    unfold int_of_digits. now rewrite Hn.
  - intros Hdig Hdec. unfold menu_priority. rewrite Hdig.
    destruct raw as [|c r]; [discriminate|]. cbn [str_truthy andb].
    unfold int_of_digits. now rewrite digits_value_not_decimal.
Qed.

Lemma menu_priority_spec_witness :
  menu_priority (Some "007") = inr 7 /\
  menu_priority (Some "-3") = inr 3 /\
  menu_priority (Some (String (ascii_of_nat 178) EmptyString))
    = inl ValueError.
Proof.
  split; [|split].
  - destruct (menu_priority_spec "007") as (_ & _ & H & _).
    destruct H as (n & -> & _ & Hn); [discriminate|reflexivity|].
    vm_compute in Hn. congruence.
  - now apply (menu_priority_spec "-3").
  - now apply (menu_priority_spec (String (ascii_of_nat 178) EmptyString)).
Defined.

(** ** The launcher menu *)

Lemma str_app_cons (x : ascii) (a b : string) :
  String x a ++ b = String x (a ++ b).
Proof. reflexivity. Qed.

Lemma str_app_nil (b : string) : "" ++ b = b.
Proof. reflexivity. Qed.

Lemma str_app_assoc (a b c : string) : (a ++ b) ++ c = a ++ (b ++ c).
Proof.
  induction a as [|x a IH]; rewrite ?str_app_nil, ?str_app_cons;
    [reflexivity|f_equal; exact IH].
Qed.

Lemma rstrip_cons_nonspace (c : ascii) (s : string) :
  is_space c = false -> rstrip (String c s) = String c (rstrip s).
Proof. intros Hc. simpl. rewrite Hc. now destruct (rstrip s). Qed.

Lemma rstrip_cons_kept (c d : ascii) (s : string) :
  is_space d = false ->
  rstrip (String c (String d s)) = String c (String d (rstrip s)).
Proof.
  intros Hd. rewrite <- (rstrip_cons_nonspace d s Hd).
  change (rstrip (String c (String d s))) with
    (match rstrip (String d s) with
     | EmptyString => if is_space c then EmptyString else String c EmptyString
     | r' => String c r'
     end).
  now rewrite (rstrip_cons_nonspace d s Hd).
Qed.

Lemma rstrip_app (a b : string) :
  rstrip (a ++ b) =
  match rstrip b with
  | EmptyString => rstrip a
  | String _ _ => a ++ rstrip b
  end.
Proof.
  induction a as [|c a IH]; rewrite ?str_app_nil, ?str_app_cons.
  - now destruct (rstrip b).
  - simpl. rewrite IH. destruct (rstrip b) as [|y z]; [reflexivity|].
    now destruct a.
Qed.

Lemma rstrip_idem (s : string) : rstrip (rstrip s) = rstrip s.
Proof.
  induction s as [|c r IH]; simpl; [reflexivity|].
  destruct (rstrip r) as [|y z] eqn:E.
  - destruct (is_space c) eqn:Hc; simpl; [reflexivity|now rewrite Hc].
  - change (rstrip (String c (String y z))) with
      (match rstrip (String y z) with
       | EmptyString => if is_space c then EmptyString else String c EmptyString
       | r' => String c r'
       end).
    now rewrite IH.
Qed.

Lemma lstrip_rstrip (s : string) : lstrip (rstrip s) = rstrip (lstrip s).
Proof.
  induction s as [|c r IH]; [reflexivity|].
  destruct (is_space c) eqn:Hc.
  - simpl lstrip at 2. rewrite Hc, <- IH. simpl.
    destruct (rstrip r); simpl; now rewrite Hc.
  - rewrite rstrip_cons_nonspace by exact Hc. cbn [lstrip]. rewrite Hc.
    now rewrite rstrip_cons_nonspace.
Qed.

Lemma strip_rstrip (s : string) : strip (rstrip s) = strip s.
Proof. unfold strip. now rewrite lstrip_rstrip, rstrip_idem. Qed.

Lemma str_contains_app (c : ascii) (a b : string) :
  str_contains c (a ++ b) = str_contains c a || str_contains c b.
Proof.
  induction a as [|x a IH]; rewrite ?str_app_nil, ?str_app_cons; simpl;
    [reflexivity|].
  now rewrite IH, orb_assoc.
Qed.

Lemma str_contains_rstrip (c : ascii) (s : string) :
  str_contains c s = false -> str_contains c (rstrip s) = false.
Proof.
  induction s as [|x r IH]; simpl; [reflexivity|]. intros H.
  apply orb_false_iff in H. destruct H as [Hx Hr]. specialize (IH Hr).
  destruct (rstrip r); [destruct (is_space x)|]; simpl; rewrite ?Hx;
    simpl; auto.
Qed.

Lemma after_last_absent (c : ascii) (s : string) :
  str_contains c s = false -> after_last c s = None.
Proof.
  induction s as [|x r IH]; simpl; [reflexivity|]. intros H.
  apply orb_false_iff in H. destruct H as [Hx Hr].
  now rewrite IH, Hx.
Qed.

Lemma after_last_app (c : ascii) (a b : string) :
  str_contains c b = false -> after_last c (a ++ String c b) = Some b.
Proof.
  intros Hb. induction a as [|x a IH]; rewrite ?str_app_nil, ?str_app_cons;
    simpl.
  - now rewrite after_last_absent, Ascii.eqb_refl.
  - now rewrite IH.
Qed.

(** What [run_menu] returns when the line of a task is picked: the line
    without the white space that may end the short id. *)
Lemma run_menu_option (t : Task) :
  exists c rest,
    (c = "x" \/ c = " ")%char /\
    run_menu (Some (menu_option t ++ newline)) =
      Some (String "[" (String c (String "]"
              (rest ++
               String "#" (rstrip (str_take 6 (dict_get (task_id t) ""))))))).
Proof.
  set (s6 := str_take 6 (dict_get (task_id t) "")).
  set (pr := match priority t with Some p => str_of_int p | None => "?" end).
  exists (if truthy (done t) then "x" else " ")%char,
         (" P" ++ pr ++ " " ++ dict_get (title t) "" ++ "  ").
  split; [destruct (truthy (done t)); auto|].
  unfold run_menu, menu_option. fold s6 pr. simpl option_map. f_equal.
  assert (Hshape :
    ((if truthy (done t) then "[x]" else "[ ]") ++ " P" ++ pr ++ " " ++
     dict_get (title t) "" ++ "  #" ++ s6) ++ newline =
    String "[" (String (if truthy (done t) then "x" else " ")%char
      (String "]" ((" P" ++ pr ++ " " ++ dict_get (title t) "" ++ "  ") ++
                   String "#" (s6 ++ newline))))).
  { destruct (truthy (done t));
      repeat (rewrite ?str_app_assoc, ?str_app_cons, ?str_app_nil);
      reflexivity. }
  rewrite Hshape. unfold strip. simpl lstrip.
  rewrite (rstrip_cons_nonspace "[") by reflexivity. f_equal.
  rewrite (rstrip_cons_kept _ "]") by reflexivity. do 2 f_equal.
  rewrite rstrip_app, (rstrip_cons_nonspace "#") by reflexivity.
  f_equal. f_equal. rewrite rstrip_app. reflexivity.
Qed.

Lemma manage_menu_task_line (state : State) (c : ascii) (rest x : string)
    (ttl raw_priority : option string) (uid now_iso : string) :
  (c = "x" \/ c = " ")%char ->
  str_contains "#" x = false ->
  manage_menu state
    (Some (String "[" (String c (String "]" (rest ++ String "#" x)))))
    ttl raw_priority uid now_iso =
  inr (Some (toggle_task state (strip x)).1,
       if (toggle_task state (strip x)).1
       then reset_cycle (toggle_task state (strip x)).2
       else (toggle_task state (strip x)).2).
Proof.
  intros Hc Hx.
  assert (Hlast :
    rsplit_last "#" (String "[" (String c (String "]" (rest ++ String "#" x))))
    = x).
  { unfold rsplit_last.
    change (String "[" (String c (String "]" (rest ++ String "#" x))))
      with (String "[" (String c (String "]" rest)) ++ String "#" x).
    now rewrite after_last_app. }
  assert (Hhash :
    str_contains "#"
      (String "[" (String c (String "]" (rest ++ String "#" x)))) = true).
  { simpl. rewrite str_contains_app. simpl. now rewrite !orb_true_r. }
  unfold manage_menu. rewrite Hhash, Hlast.
  destruct Hc as [-> | ->]; simpl;
    now destruct (toggle_task state (strip x)).
Qed.

Lemma toggle_task_false_state (state : State) (tid : string) :
  (toggle_task state tid).1 = false -> (toggle_task state tid).2 = state.
Proof.
  unfold toggle_task. destruct state as [[ts|] idx]; simpl; [|reflexivity].
  pose proof (toggle_loop_false ts tid) as Hf.
  destruct (toggle_loop ts tid) as [b ts']. simpl in *. intros ->.
  now destruct (Hf eq_refl) as [-> _].
Qed.

(** X16. Picking the line of a task in the launcher toggles by the short id
    printed on that line: the first task whose whole id equals the first
    six characters of the picked task's id (trimmed) is toggled and the
    cursor reset.  When no task has that text as its id, as for a task
    with a longer id, nothing changes and no change is reported. *)
Theorem manage_menu_pick_task (state : State) (t : Task)
    (ttl raw_priority : option string) (uid now_iso : string) :
  str_contains "#" (str_take 6 (dict_get (task_id t) "")) = false ->
  let tid := strip (str_take 6 (dict_get (task_id t) "")) in
  let picked := run_menu (Some (menu_option t ++ newline)) in
  let result := manage_menu state picked ttl raw_priority uid now_iso in
  result = inr (Some (toggle_task state tid).1,
                if (toggle_task state tid).1
                then reset_cycle (toggle_task state tid).2
                else (toggle_task state tid).2) /\
  ((forall u, In u (state_tasks state) -> task_id u <> Some tid) ->
   result = inr (Some false, state)) /\
  ((exists u, In u (state_tasks state) /\ task_id u = Some tid) ->
   exists state', result = inr (Some true, state') /\
                  show_index state' = Some 0).
Proof.
  intros Hhash tid picked result.
  assert (Hres : result =
    inr (Some (toggle_task state tid).1,
         if (toggle_task state tid).1
         then reset_cycle (toggle_task state tid).2
         else (toggle_task state tid).2)).
  { subst result picked tid.
    destruct (run_menu_option t) as (c & rest & Hc & ->).
    rewrite manage_menu_task_line;
      [now rewrite strip_rstrip|exact Hc|now apply str_contains_rstrip]. }
  split; [exact Hres|]. split.
  - intros Hno. rewrite Hres.
    destruct (toggle_task state tid).1 eqn:Hb.
    + apply toggle_task_true_iff in Hb. destruct Hb as (u & Hin & Hid).
      now apply Hno in Hin.
    + now rewrite (toggle_task_false_state _ _ Hb).
  - intros Hex. apply toggle_task_true_iff in Hex. rewrite Hres, Hex.
    eexists. split; reflexivity.
Qed.

Lemma manage_menu_pick_task_witness :
  manage_menu seeded_state
    (run_menu
       (Some (menu_option
                (mkTask (Some "seed-manage") (Some "Right click to edit or add")
                        (Some 3) (Some false) (Some sample_created))
              ++ newline)))
    None None "0123456789" sample_created
  = inr (Some false, seeded_state).
Proof.
  apply (manage_menu_pick_task seeded_state
           (mkTask (Some "seed-manage") (Some "Right click to edit or add")
                   (Some 3) (Some false) (Some sample_created))
           None None "0123456789" sample_created).
  - reflexivity.
  - intros u [<-|[<-|[]]] H; vm_compute in H; discriminate.
Defined.

Lemma not_bracket_no_command (c : string) :
  startswith c "[" = false ->
  startswith c "[+]" = false /\ startswith c "[!]" = false /\
  startswith c "[0]" = false.
Proof.
  unfold startswith. destruct c as [|a r]; cbn [String.prefix]; [auto|].
  destruct (ascii_dec "[" a); [destruct r; discriminate|auto].
Qed.

Lemma menu_priority_raises (raw_priority : option string) (e : exn) :
  menu_priority raw_priority = inl e ->
  e = ValueError /\
  exists raw, raw_priority = Some raw /\ str_isdigit raw = true /\
              all_chars is_decimal raw = false.
Proof.
  unfold menu_priority. destruct raw_priority as [raw|]; [|discriminate].
  destruct (str_truthy raw && str_isdigit raw) eqn:E; [|discriminate].
  apply andb_true_iff in E. destruct E as [Ht Hd].
  unfold int_of_digits. destruct raw as [|c r]; [discriminate|].
  destruct (digits_value 0 (String c r)) as [n|] eqn:Hv; [discriminate|].
  intros [= <-]. split; [reflexivity|]. exists (String c r).
  repeat split; [exact Hd|].
  destruct (all_chars is_decimal (String c r)) eqn:Hall; [|reflexivity].
  destruct (digits_value_decimal _ 0 Hall) as (n & Hn & _); [lia|congruence].
Qed.

(** X17. [manage_menu] leaves the state alone and reports no change when
    the launcher returns nothing, an empty line, or a line that does not
    start with a bracket.  It raises only in one case: [ValueError], when a
    task is added with a priority text made of digits that [int] does not
    read. *)
Theorem manage_menu_quiet (state : State) (ttl raw_priority : option string)
    (uid now_iso : string) :
  manage_menu state None ttl raw_priority uid now_iso
    = inr (Some false, state) /\
  (forall c, startswith c "[" = false ->
     exists r, manage_menu state (Some c) ttl raw_priority uid now_iso
                 = inr (r, state) /\ r <> Some true) /\
  (forall c e,
     manage_menu state (Some c) ttl raw_priority uid now_iso = inl e ->
     e = ValueError /\ startswith c "[+]" = true /\
     exists raw, raw_priority = Some raw /\ str_isdigit raw = true /\
                 all_chars is_decimal raw = false).
Proof.
  split; [reflexivity|]. split.
  - intros c Hc. destruct (not_bracket_no_command c Hc) as (H1 & H2 & H3).
    unfold manage_menu. rewrite H1, H2, H3, Hc. simpl.
    destruct (str_truthy c); simpl; eexists; split; try reflexivity;
      discriminate.
  - intros c e. unfold manage_menu.
    destruct (str_truthy c); simpl; [|discriminate].
    destruct (startswith c "[+]").
    + destruct ttl as [tl|]; [|discriminate].
      destruct (str_truthy tl); [|discriminate].
      destruct (menu_priority raw_priority) as [e'|n] eqn:E; [|discriminate].
      intros [= <-]. destruct (menu_priority_raises _ _ E) as [-> Hraw].
      auto.
    + destruct (startswith c "[!]"); [discriminate|].
      destruct (startswith c "[0]"); [discriminate|].
      destruct (startswith c "[" && str_contains "#" c); [|discriminate].
      now destruct (toggle_task state _).
Qed.

Lemma manage_menu_quiet_witness :
  manage_menu seeded_state (Some "---") None None "0123456789" sample_created
  = inr (None, seeded_state).
Proof.
  destruct (manage_menu_quiet seeded_state None None "0123456789"
              sample_created) as (_ & H & _).
  destruct (H "---" eq_refl) as (r & Hr & _).
  rewrite Hr. vm_compute in Hr. congruence.
Defined.

(** ** The terminal editor *)

Lemma adjust_cursor_range (len idx : Z) :
  0 <= len ->
  0 <= adjust_cursor len idx /\
  (0 < len -> adjust_cursor len idx < len) /\
  (len = 0 -> adjust_cursor len idx = 0).
Proof.
  intros Hlen. unfold adjust_cursor.
  destruct (Z.geb_spec idx len);
    repeat match goal with
      | |- context [Z.ltb ?a ?b] => destruct (Z.ltb_spec a b)
      end; lia.
Qed.

Lemma py_index_in_range {A} (l : list A) (i : Z) :
  0 <= i < Z.of_nat (length l) -> is_Some (py_index l i).
Proof.
  intros Hi. unfold py_index. destruct (Z.ltb_spec i 0); [lia|].
  apply lookup_lt_is_Some. lia.
Qed.

Lemma py_index_In {A} (l : list A) (i : Z) (x : A) :
  py_index l i = Some x -> In x l.
Proof.
  unfold py_index. intros H. apply list_elem_of_In.
  destruct (i <? 0)%Z; [destruct (- i <=? _)%Z; [|discriminate]|];
    eapply list_elem_of_lookup_2; exact H.
Qed.

Lemma selected_entry (ts : list Task) (idx : Z) :
  sorted_entries ts <> [] ->
  is_Some (py_index (sorted_entries ts)
             (adjust_cursor (Z.of_nat (length (sorted_entries ts))) idx)).
Proof.
  intros Hne. apply py_index_in_range.
  destruct (adjust_cursor_range (Z.of_nat (length (sorted_entries ts))) idx)
    as (H0 & Hlt & _); [lia|].
  split; [exact H0|]. apply Hlt. destruct (sorted_entries ts); [congruence|].
  simpl. lia.
Qed.

Lemma combine_seq_lookup {A} (l : list A) (a j : nat) (x : A) :
  In (j, x) (combine (seq a (length l)) l) ->
  (a <= j)%nat /\ l !! (j - a)%nat = Some x.
Proof.
  revert a. induction l as [|y r IH]; simpl; intros a; [intros []|].
  intros [[= <- <-]|Hin].
  - split; [lia|]. now rewrite Nat.sub_diag.
  - destruct (IH (S a) Hin) as [Hle Hl]. split; [lia|].
    replace (j - a)%nat with (S (j - S a)) by lia. exact Hl.
Qed.

(** An entry of the display list is the stored task at its place. *)
Lemma sorted_entries_place (ts : list Task) (place : nat) (task : Task) :
  In (place, task) (sorted_entries ts) -> ts !! place = Some task.
Proof.
  unfold sorted_entries. intros Hin. apply sorted_In in Hin.
  apply combine_seq_lookup in Hin. destruct Hin as [_ Hl].
  now rewrite Nat.sub_0_r in Hl.
Qed.

Lemma sorted_entries_nil (ts : list Task) :
  sorted_entries ts = [] <-> ts = [].
Proof.
  unfold sorted_entries. split; [|now intros ->].
  intros H. apply (f_equal length) in H.
  rewrite sorted_length, length_combine, length_seq in H.
  destruct ts; [reflexivity|simpl in H; lia].
Qed.

Lemma sorted_map {A B} (f : A -> B) (ltb : B -> B -> bool) (l : list A) :
  List.map f (sorted (fun a b => ltb (f a) (f b)) l) =
  sorted ltb (List.map f l).
Proof.
  induction l as [|x r IH]; simpl; [reflexivity|]. rewrite <- IH.
  generalize (sorted (fun a b => ltb (f a) (f b)) r). intros l.
  induction l as [|y l IHl]; simpl; [reflexivity|].
  destruct (ltb (f y) (f x)); simpl; [now rewrite IHl|reflexivity].
Qed.

Lemma map_snd_combine_seq {A} (l : list A) (a : nat) :
  List.map snd (combine (seq a (length l)) l) = l.
Proof.
  revert a. induction l as [|x r IH]; simpl; intros a; [reflexivity|].
  now rewrite IH.
Qed.

(** The editor lists the tasks in the order of [sorted_tasks]. *)
Lemma sorted_entries_tasks (ts : list Task) :
  List.map snd (sorted_entries ts) = sorted_tasks ts.
Proof.
  unfold sorted_entries, sorted_tasks.
  now rewrite (sorted_map snd task_ltb), map_snd_combine_seq.
Qed.

Lemma truthy_nonempty (s : string) : str_truthy s = true <-> s <> "".
Proof. destruct s; simpl; split; congruence. Qed.

(** The three ways the second [try] block of the edit key can go on a text
    that is not blank. *)
Lemma edit_new_priority_cases (task : Task) (s : string) :
  s <> "" ->
  (all_chars is_decimal s = true ->
   exists n, digits_value 0 s = Some n /\ edit_new_priority task s = Some n) /\
  (str_isdigit s = true -> all_chars is_decimal s = false ->
   edit_new_priority task s = None) /\
  (str_isdigit s = false -> edit_new_priority task s = priority task).
Proof.
  intros Hne. unfold edit_new_priority, int_of_digits. repeat split.
  - intros Hdec. destruct (digits_value_decimal s 0 Hdec) as (n & Hn & _);
      [lia|].
    exists n. split; [exact Hn|].
    unfold str_isdigit. rewrite (decimal_is_digit s Hdec).
    rewrite (proj2 (truthy_nonempty s) Hne). simpl.
    destruct s; [congruence|]. now rewrite Hn.
  - intros Hdig Hdec. rewrite Hdig.
    destruct s; [congruence|]. now rewrite digits_value_not_decimal.
  - now intros ->.
Qed.

Lemma edit_new_priority_None (task : Task) (s : string) :
  s <> "" ->
  edit_new_priority task s = None <->
  (str_isdigit s = true /\ all_chars is_decimal s = false) \/
  (str_isdigit s = false /\ priority task = None).
Proof.
  intros Hne.
  destruct (edit_new_priority_cases task s Hne) as (H1 & H2 & H3).
  split.
  - intros Hn. destruct (str_isdigit s) eqn:Hd.
    + left. split; [reflexivity|].
      destruct (all_chars is_decimal s) eqn:Hdec; [|reflexivity].
      destruct (H1 eq_refl) as (n & _ & Hs). congruence.
    + right. split; [reflexivity|]. rewrite <- Hn. symmetry. now apply H3.
  - intros [[Hd Hdec]|[Hd Hp]]; [now apply H2|]. now rewrite H3.
Qed.

Lemma edit_task_eq (task : Task) (typed_title typed_priority : option string) :
  edit_task task typed_title typed_priority =
  let task1 :=
    match typed_title with
    | Some typed =>
        if str_truthy (strip typed) then set_title task (strip typed) else task
    | None => task
    end in
  let ch1 :=
    match typed_title with
    | Some typed => str_truthy (strip typed)
    | None => false
    end in
  match typed_priority with
  | Some typed =>
      if str_truthy (strip typed) then
        match edit_new_priority task (strip typed) with
        | Some n => (set_priority task1 (clamp_priority n), true)
        | None => (task1, ch1)
        end
      else (task1, ch1)
  | None => (task1, ch1)
  end.
Proof.
  unfold edit_task.
  destruct typed_title as [typed|]; [destruct (str_truthy (strip typed))|];
    reflexivity.
Qed.

Lemma edit_task_fields (task : Task)
    (typed_title typed_priority : option string) :
  let task' := (edit_task task typed_title typed_priority).1 in
  task_id task' = task_id task /\
  done task' = done task /\
  created task' = created task /\
  (priority task' = priority task \/
   exists n, priority task' = Some (clamp_priority n)).
Proof.
  rewrite edit_task_eq.
  destruct typed_title as [tt|]; [destruct (str_truthy (strip tt))|];
    (destruct typed_priority as [tp|];
     [destruct (str_truthy (strip tp));
      [destruct (edit_new_priority task (strip tp))|]|]);
    simpl; repeat split; eauto.
Qed.

Lemma edit_task_unchanged (task : Task)
    (typed_title typed_priority : option string) :
  (edit_task task typed_title typed_priority).2 = false ->
  (edit_task task typed_title typed_priority).1 = task.
Proof.
  rewrite edit_task_eq.
  destruct typed_title as [tt|]; [destruct (str_truthy (strip tt))|];
    (destruct typed_priority as [tp|];
     [destruct (str_truthy (strip tp));
      [destruct (edit_new_priority task (strip tp))|]|]);
    simpl; congruence.
Qed.

(** X18. Editing a task in the terminal editor changes its title and its
    priority only.  The title becomes the typed text trimmed when that is
    not empty, and stays otherwise (blank text, or bytes that do not
    decode).  The priority becomes the typed number clamped into 1 to 5; on
    a text that is no number it becomes the old priority clamped; it stays
    when the text is blank or does not decode, when [int] raises on it, or
    when it is no number and the task has no priority.  The change is
    reported exactly when one of the two was stored, and then only: with
    nothing reported the task is as it was. *)
Theorem edit_task_spec (task : Task)
    (typed_title typed_priority : option string) :
  let task' := (edit_task task typed_title typed_priority).1 in
  let ch := (edit_task task typed_title typed_priority).2 in
  let title_stored := exists s, typed_title = Some s /\ strip s <> "" in
  let priority_left :=
    typed_priority = None \/
    exists s, typed_priority = Some s /\
      (strip s = "" \/
       (str_isdigit (strip s) = true /\
        all_chars is_decimal (strip s) = false) \/
       (str_isdigit (strip s) = false /\ priority task = None)) in
  (task_id task' = task_id task /\ done task' = done task /\
   created task' = created task) /\
  (forall s, typed_title = Some s -> strip s <> "" ->
     title task' = Some (strip s)) /\
  (~ title_stored -> title task' = title task) /\
  (forall s n, typed_priority = Some s -> strip s <> "" ->
     all_chars is_decimal (strip s) = true ->
     digits_value 0 (strip s) = Some n ->
     priority task' = Some (clamp_priority n) /\ ch = true) /\
  (forall s p, typed_priority = Some s -> strip s <> "" ->
     str_isdigit (strip s) = false -> priority task = Some p ->
     priority task' = Some (clamp_priority p) /\ ch = true) /\
  (priority_left ->
   priority task' = priority task /\ (ch = true <-> title_stored)) /\
  (ch = true <-> title_stored \/ ~ priority_left) /\
  (forall p, priority task' = Some p ->
     priority task' = priority task \/ 1 <= p <= 5) /\
  (ch = false -> task' = task).
Proof.
  intros task' ch title_stored priority_left.
  destruct (edit_task_fields task typed_title typed_priority)
    as (Hid & Hdone & Hcr & Hprio).
  assert (Htitle : forall s, typed_title = Some s -> strip s <> "" ->
                     title task' = Some (strip s)).
  { intros s -> Hne. subst task'. rewrite edit_task_eq.
    rewrite (proj2 (truthy_nonempty _) Hne).
    destruct typed_priority as [tp|];
      [destruct (str_truthy (strip tp));
       [destruct (edit_new_priority task (strip tp))|]|]; reflexivity. }
  assert (Hkeep : ~ title_stored -> title task' = title task).
  { intros Hno. subst task'. rewrite edit_task_eq.
    assert (Ht1 :
      match typed_title with
      | Some typed =>
          if str_truthy (strip typed) then set_title task (strip typed)
          else task
      | None => task
      end = task).
    { destruct typed_title as [tt|]; [|reflexivity].
      destruct (str_truthy (strip tt)) eqn:E; [|reflexivity].
      exfalso. apply Hno. exists tt. split; [reflexivity|].
      now apply truthy_nonempty. }
    rewrite Ht1.
    destruct typed_priority as [tp|];
      [destruct (str_truthy (strip tp));
       [destruct (edit_new_priority task (strip tp))|]|]; reflexivity. }
  assert (Hstore : forall s n, typed_priority = Some s -> strip s <> "" ->
            edit_new_priority task (strip s) = Some n ->
            priority task' = Some (clamp_priority n) /\ ch = true).
  { intros s n -> Hne Hn. subst task' ch. rewrite edit_task_eq.
    rewrite (proj2 (truthy_nonempty _) Hne), Hn. split; reflexivity. }
  assert (Hch1 :
    match typed_title with
    | Some typed => str_truthy (strip typed)
    | None => false
    end = true <-> title_stored).
  { subst title_stored. destruct typed_title as [tt|].
    - rewrite truthy_nonempty. split.
      + intros Hne. now exists tt.
      + now intros (s & [= ->] & Hne).
    - split; [discriminate|]. now intros (s & [=] & _). }
  assert (Hleft : priority_left ->
            priority task' = priority task /\ (ch = true <-> title_stored)).
  { intros Hleft. subst task' ch. rewrite edit_task_eq.
    destruct Hleft as [->|(s & -> & Hcase)].
    - simpl. split; [|exact Hch1].
      destruct typed_title as [tt|]; [destruct (str_truthy (strip tt))|];
        reflexivity.
    - assert (Hskip :
        (if str_truthy (strip s)
         then edit_new_priority task (strip s) else None) = None).
      { destruct (str_truthy (strip s)) eqn:Et; [|reflexivity].
        apply truthy_nonempty in Et.
        destruct Hcase as [Hblank|Hcase]; [congruence|].
        now apply edit_new_priority_None. }
      destruct (str_truthy (strip s));
        [rewrite Hskip|]; simpl; (split; [|exact Hch1]);
        (destruct typed_title as [tt|]; [destruct (str_truthy (strip tt))|]);
        reflexivity. }
  assert (Hcases : priority_left \/
            exists s n, typed_priority = Some s /\ strip s <> "" /\
                        edit_new_priority task (strip s) = Some n).
  { subst priority_left. destruct typed_priority as [s|]; [|now do 2 left].
    destruct (str_truthy (strip s)) eqn:Et.
    - apply truthy_nonempty in Et.
      destruct (edit_new_priority task (strip s)) as [n|] eqn:En.
      + right. now exists s, n.
      + left. right. exists s. split; [reflexivity|]. right.
        now apply edit_new_priority_None.
    - apply blank_not_truthy in Et. left. right. exists s. auto. }
  split; [auto|]. split; [exact Htitle|]. split; [exact Hkeep|].
  split; [|split; [|split; [exact Hleft|split; [|split]]]].
  - intros s n Hs Hne Hdec Hn.
    destruct (edit_new_priority_cases task (strip s) Hne) as (H1 & _ & _).
    destruct (H1 Hdec) as (m & Hm & Hnew).
    apply (Hstore s n Hs Hne). congruence.
  - intros s p Hs Hne Hnd Hp.
    destruct (edit_new_priority_cases task (strip s) Hne) as (_ & _ & H3).
    apply (Hstore s p Hs Hne). now rewrite (H3 Hnd).
  - destruct Hcases as [Hl|(s & n & Hs & Hne & Hn)].
    + destruct (Hleft Hl) as [_ Hiff]. tauto.
    + destruct (Hstore s n Hs Hne Hn) as [_ Hch].
      split; [|intros _; exact Hch]. intros _. right.
      intros [Hnone|(s' & Hs' & Hcase)]; [congruence|].
      assert (s' = s) as -> by congruence.
      destruct Hcase as [Hblank|Hcase]; [congruence|].
      apply (edit_new_priority_None task (strip s) Hne) in Hcase. congruence.
  - intros p Hp. destruct Hprio as [Hsame|[n Hn]]; [now left|right].
    fold task' in Hn. rewrite Hn in Hp. injection Hp as <-.
    apply clamp_priority_range.
  - apply edit_task_unchanged.
Qed.

Lemma edit_task_spec_witness :
  title (edit_task bare_task (Some " Call the bank today ") (Some "9")).1
    = Some "Call the bank today" /\
  priority (edit_task bare_task (Some " Call the bank today ") (Some "9")).1
    = Some 5 /\
  priority (edit_task bare_task None
              (Some (String (ascii_of_nat 178) EmptyString))).1 = Some 2 /\
  priority (edit_task bare_task (Some "  ") (Some "high")).1 = Some 2 /\
  priority (edit_task (mkTask (Some "t5") (Some "Aardvark") None (Some false)
                              None)
              (Some "") (Some "high")).1 = None.
Proof.
  split; [|split; [|split; [|split]]].
  - destruct (edit_task_spec bare_task (Some " Call the bank today ")
                (Some "9")) as (_ & H & _).
    now apply (H " Call the bank today ").
  - destruct (edit_task_spec bare_task (Some " Call the bank today ")
                (Some "9")) as (_ & _ & _ & H & _).
    now apply (H "9" 9).
  - destruct (edit_task_spec bare_task None
                (Some (String (ascii_of_nat 178) EmptyString)))
      as (_ & _ & _ & _ & _ & H & _).
    apply H. right. eexists. split; [reflexivity|]. right. left.
    split; reflexivity.
  - destruct (edit_task_spec bare_task (Some "  ") (Some "high"))
      as (_ & _ & _ & _ & H & _).
    now apply (H "high" 2).
  - destruct (edit_task_spec
                (mkTask (Some "t5") (Some "Aardvark") None (Some false) None)
                (Some "") (Some "high")) as (_ & _ & _ & _ & _ & H & _).
    apply H. right. eexists. split; [reflexivity|]. right. right.
    split; reflexivity.
Defined.

Lemma tui_selected (ts : list Task) (idx : Z) :
  sorted_entries ts <> [] ->
  exists place task,
    py_index (sorted_entries ts)
      (adjust_cursor (Z.of_nat (length (sorted_entries ts))) idx)
    = Some (place, task) /\
    ts !! place = Some task.
Proof.
  intros Hne. destruct (selected_entry ts idx Hne) as [[place task] Hsel].
  exists place, task. split; [exact Hsel|].
  apply sorted_entries_place. eapply py_index_In, Hsel.
Qed.

Lemma tui_priority_raises (prio_str : string) (e : tui_error) :
  tui_priority prio_str = inl e ->
  e = IntValueError /\ str_isdigit prio_str = true /\
  all_chars is_decimal prio_str = false.
Proof.
  unfold tui_priority. destruct (str_isdigit prio_str) eqn:Hd; [|discriminate].
  unfold int_of_digits. destruct prio_str as [|c r]; [discriminate|].
  destruct (digits_value 0 (String c r)) as [n|] eqn:Hv; [discriminate|].
  intros [= <-]. repeat split.
  destruct (all_chars is_decimal (String c r)) eqn:Hall; [|reflexivity].
  destruct (digits_value_decimal _ 0 Hall) as (n & Hn & _); [lia|congruence].
Qed.

(** What the add key raises: [UnicodeDecodeError] when a typed text does
    not decode, the title first and the priority only after a title that
    is not blank; the [ValueError] of [int] on digits it does not read. *)
Lemma tui_add_raises (v : Tui) (typed_title typed_priority : option string)
    (uid now_iso : string) (e : tui_error) :
  tui_step (KeyAdd typed_title typed_priority uid now_iso) v = inl e ->
  (e = UnicodeDecodeError /\
   (typed_title = None \/
    exists t, typed_title = Some t /\ strip t <> "" /\
              typed_priority = None)) \/
  (e = IntValueError /\
   exists t p, typed_title = Some t /\ typed_priority = Some p /\
     strip t <> "" /\ str_isdigit (strip p) = true /\
     all_chars is_decimal (strip p) = false).
Proof.
  unfold tui_step.
  destruct typed_title as [t|]; [|intros [= <-]; left; auto].
  destruct (str_truthy (strip t)) eqn:Ht; [|discriminate].
  apply truthy_nonempty in Ht.
  destruct typed_priority as [p|]; [|intros [= <-]; left; eauto 6].
  destruct (tui_priority (strip p)) eqn:Hp; [|discriminate].
  intros [= <-]. destruct (tui_priority_raises _ _ Hp) as (-> & Hd & Hdec).
  right. eauto 8.
Qed.

(** X19. A turn of the editor never indexes outside the task list, whatever
    the cursor was.  It raises [KeyError] only on the keys that toggle or
    delete, when a task of the collection has no id.  It raises
    [UnicodeDecodeError] only on the add key, when the bytes typed for the
    title do not decode, or the title is not blank and the bytes typed for
    the priority do not decode.  It raises the [ValueError] of [int] only
    on the add key, with a title that is not blank and a priority text made
    of digits that [int] does not read. *)
Theorem tui_step_errors (key : tui_key) (v : Tui) (e : tui_error) :
  tui_step key v = inl e ->
  e <> IndexError /\
  (e = KeyError ->
   (key = KeySpace \/ key = KeyDelete) /\
   exists t, In t (state_tasks (tui_state v)) /\ task_id t = None) /\
  (e = UnicodeDecodeError ->
   exists typed_title typed_priority uid now_iso,
     key = KeyAdd typed_title typed_priority uid now_iso /\
     (typed_title = None \/
      exists t, typed_title = Some t /\ strip t <> "" /\
                typed_priority = None)) /\
  (e = IntValueError ->
   exists t p uid now_iso,
     key = KeyAdd (Some t) (Some p) uid now_iso /\
     strip t <> "" /\
     str_isdigit (strip p) = true /\
     all_chars is_decimal (strip p) = false).
Proof.
  destruct key;
    try (intros Hadd; apply tui_add_raises in Hadd;
         destruct Hadd as [[-> Hdec]|[-> (t & p & -> & -> & Hint)]];
         repeat split; try discriminate; eauto 8).
  all: unfold tui_step; set (ts := state_tasks (tui_state v));
    try discriminate.
  all: destruct (sorted_entries ts) as [|entry rest] eqn:Hentries;
    try discriminate.
  all: rewrite <- Hentries;
    destruct (tui_selected ts (current_idx v))
      as (place & task & -> & Hplace); [now rewrite Hentries|];
    assert (Hin : In task ts)
      by (apply list_elem_of_In; eapply list_elem_of_lookup_2, Hplace).
  - destruct (task_id task) eqn:Hid; [discriminate|]. intros [= <-].
    repeat split; try discriminate; eauto.
  - destruct (task_id task) eqn:Hid.
    + destruct (delete_task (tui_state v) s) as [[|] ?]; discriminate.
    + intros [= <-]. repeat split; try discriminate; eauto.
  - destruct (edit_task task typed_title typed_priority). discriminate.
Qed.

Lemma tui_step_errors_witness :
  (exists t, In t (state_tasks nameless_state) /\ task_id t = None) /\
  (exists typed_title typed_priority uid now_iso,
     KeyAdd (Some "Tea") None "a0b1c2d3e4" sample_created =
     KeyAdd typed_title typed_priority uid now_iso /\
     (typed_title = None \/
      exists t, typed_title = Some t /\ strip t <> "" /\
                typed_priority = None)).
Proof.
  split.
  - apply (tui_step_errors KeySpace (mkTui nameless_state 0 false) KeyError);
      reflexivity.
  - apply (tui_step_errors
             (KeyAdd (Some "Tea") None "a0b1c2d3e4" sample_created)
             (mkTui seeded_state 0 false) UnicodeDecodeError);
      reflexivity.
Defined.

Lemma state_tasks_present (state : State) :
  state_tasks state <> [] -> tasks state = Some (state_tasks state).
Proof.
  unfold state_tasks. destruct (tasks state); simpl; [reflexivity|congruence].
Qed.

Lemma delete_task_false_state (state : State) (tid : string) :
  state_tasks state <> [] ->
  (delete_task state tid).1 = false -> (delete_task state tid).2 = state.
Proof.
  intros Hne Hno. unfold delete_task in *. simpl in *.
  rewrite filter_all_true.
  - rewrite <- (state_tasks_present state Hne). now destruct state.
  - intros x Hx.
    destruct (negb (bool_decide (task_id x = Some tid))) eqn:E; [reflexivity|].
    assert (Hlt : (length (List.filter
                     (fun t => negb (bool_decide (task_id t = Some tid)))
                     (state_tasks state)) <? length (state_tasks state))%nat
                  = true) by (apply filter_length_lt; now exists x).
    congruence.
Qed.

Lemma edit_in_place (state : State) (place : nat) (task : Task) :
  state_tasks state !! place = Some task ->
  mkState (Some (<[place := task]> (state_tasks state))) (show_index state) =
  state.
Proof.
  intros Hplace. rewrite list_insert_id by exact Hplace.
  rewrite <- state_tasks_present.
  - now destruct state.
  - intros Hnil. now rewrite Hnil in Hplace.
Qed.

Ltac z_cases :=
  repeat match goal with
    | |- context [Z.ltb ?a ?b] => destruct (Z.ltb_spec a b)
    | |- context [Z.gtb ?a ?b] => destruct (Z.gtb_spec a b)
    | |- context [Z.geb ?a ?b] => destruct (Z.geb_spec a b)
    end.

Ltac tui_cases :=
  simpl; repeat split; auto using Forall_filter_keeps; try discriminate;
  try (z_cases; lia);
  try (intros Hkept; unfold clear_completed, state_tasks at 1; simpl;
       now apply Forall_filter_keeps).

(** What a turn of the editor keeps: the cursor it leaves is not negative,
    the [changed] flag is never taken back, only the quit key ends the loop,
    ids and priorities in range stay, and a turn that leaves the flag false
    leaves the state as it was. *)
Lemma tui_step_facts (key : tui_key) (v : Tui) (go : bool) (v' : Tui) :
  tui_step key v = inr (go, v') ->
  0 <= current_idx v' /\
  (changed v = true -> changed v' = true) /\
  (go = false <-> key = KeyQuit) /\
  (Forall (fun t => is_Some (task_id t)) (state_tasks (tui_state v)) ->
   Forall (fun t => is_Some (task_id t)) (state_tasks (tui_state v'))) /\
  (priorities_valid (state_tasks (tui_state v)) ->
   priorities_valid (state_tasks (tui_state v'))) /\
  (changed v' = false -> tui_state v' = tui_state v).
Proof.
  unfold tui_step, priorities_valid.
  set (ts := state_tasks (tui_state v)).
  pose proof (adjust_cursor_range
                (Z.of_nat (length (sorted_entries ts))) (current_idx v)
                ltac:(lia)) as (Hidx & _ & _).
  assert (Hcase :
    sorted_entries ts = [] \/
    exists place task,
      py_index (sorted_entries ts)
        (adjust_cursor (Z.of_nat (length (sorted_entries ts))) (current_idx v))
      = Some (place, task) /\
      ts !! place = Some task /\ sorted_entries ts <> []).
  { destruct (sorted_entries ts) as [|entry rest] eqn:E; [now left|right].
    rewrite <- E.
    destruct (tui_selected ts (current_idx v)) as (place & task & Hsel & Hpl);
      [now rewrite E|].
    exists place, task. repeat split; try assumption. now rewrite E. }
  destruct Hcase as [Hnil|(place & task & Hsel & Hplace & Hne')].
  - rewrite Hnil in *.
    remember (adjust_cursor (Z.of_nat (length (@nil (nat * Task))))
                (current_idx v)) as idx eqn:Hdef.
    clear Hdef.
    destruct key; try (intros [= <- <-]; tui_cases).
    destruct typed_title as [typed_title|]; [|discriminate].
    destruct (str_truthy (strip typed_title)).
    + destruct typed_priority as [typed_priority|]; [|discriminate].
      destruct (tui_priority (strip typed_priority)) as [e|prio];
        [discriminate|].
      intros [= <- <-]. tui_cases.
      * intros Hids. rewrite add_task_tasks. apply Forall_app.
        split; [exact Hids|]. repeat constructor. simpl. eauto.
      * intros Hp. rewrite add_task_tasks. apply Forall_app.
        split; [exact Hp|]. repeat constructor.
        eexists. split; [reflexivity|apply clamp_priority_range].
    + intros [= <- <-]. tui_cases.
  - assert (Hne : ts <> []).
    { intros Hnil. now apply sorted_entries_nil in Hnil. }
    rewrite Hsel.
    assert (Hin : In task ts)
      by (apply list_elem_of_In; eapply list_elem_of_lookup_2, Hplace).
    remember (adjust_cursor (Z.of_nat (length (sorted_entries ts)))
                (current_idx v)) as idx eqn:Hdef.
    clear Hdef Hsel.
    destruct (sorted_entries ts) as [|entry rest]; [congruence|].
    destruct key; try (intros [= <- <-]; tui_cases).
    + destruct (task_id task) as [tid|]; [|discriminate].
      intros [= <- <-]. tui_cases.
      * intros Hids. rewrite toggle_task_tasks.
        apply toggle_loop_Forall; [now intros t|exact Hids].
      * intros Hp. rewrite toggle_task_tasks.
        apply toggle_loop_Forall; [now intros t|exact Hp].
    + destruct (task_id task) as [tid|]; [|discriminate].
      pose proof (delete_task_false_state (tui_state v) tid Hne) as Hsame.
      destruct (delete_task (tui_state v) tid) as [deleted state'] eqn:Hdel.
      assert (Hts' : state_tasks state' =
                     List.filter
                       (fun t => negb (bool_decide (task_id t = Some tid))) ts).
      { unfold delete_task in Hdel. now inversion Hdel. }
      destruct deleted; intros [= <- <-]; simpl; rewrite Hts'; tui_cases.
    + destruct typed_title as [typed_title|]; [|discriminate].
      destruct (str_truthy (strip typed_title)).
      * destruct typed_priority as [typed_priority|]; [|discriminate].
        destruct (tui_priority (strip typed_priority)) as [e|prio];
          [discriminate|].
        intros [= <- <-]. tui_cases.
        -- intros Hids. rewrite add_task_tasks. apply Forall_app.
           split; [exact Hids|]. repeat constructor. simpl. eauto.
        -- intros Hp. rewrite add_task_tasks. apply Forall_app.
           split; [exact Hp|]. repeat constructor.
           eexists. split; [reflexivity|apply clamp_priority_range].
      * intros [= <- <-]. tui_cases.
    + destruct (edit_task_fields task typed_title typed_priority)
        as (Hid & _ & _ & Hprio).
      pose proof (edit_task_unchanged task typed_title typed_priority) as Hsame.
      destruct (edit_task task typed_title typed_priority) as [task' ch].
      simpl in *. intros [= <- <-]. tui_cases.
      * intros Hc. now rewrite Hc.
      * intros Hids. apply Forall_insert; [exact Hids|]. rewrite Hid.
        rewrite Forall_forall in Hids. apply Hids. now apply list_elem_of_In.
      * intros Hp. apply Forall_insert; [exact Hp|].
        destruct Hprio as [Heq|[n Hn]].
        -- rewrite Heq. rewrite Forall_forall in Hp. apply Hp.
           now apply list_elem_of_In.
        -- eexists. split; [exact Hn|apply clamp_priority_range].
      * intros Hc. apply orb_false_iff in Hc. destruct Hc as [_ ->].
        rewrite (Hsame eq_refl). now apply edit_in_place.
Qed.

(** ** The autosave of the editor *)

Lemma tui_loop_saved (home : string) (json_dumps : State -> string)
    (keys : list tui_key) (v : Tui) (fs fs' : FS) (go : bool) (v' : Tui) :
  (changed v = true ->
   files fs !! DATA_FILE home = Some (json_dumps (tui_state v))) ->
  tui_loop home json_dumps keys v fs = (fs', inr (inr (go, v'))) ->
  (changed v = true -> changed v' = true) /\
  (changed v' = true ->
   files fs' !! DATA_FILE home = Some (json_dumps (tui_state v'))) /\
  (changed v' = false -> tui_state v' = tui_state v /\ fs' = fs).
Proof.
  revert v fs. induction keys as [|key rest IH]; intros v fs Hinv; simpl.
  - intros [= <- <- <-]. auto.
  - destruct (tui_step key v) as [e|[[|] v1]] eqn:Hstep; [discriminate| |].
    + destruct (tui_step_facts key v true v1 Hstep)
        as (_ & Hmono & _ & _ & _ & Hquiet).
      unfold io_bind.
      destruct (changed v1) eqn:Hc1.
      * rewrite save_state_result. intros Hrun.
        apply IH in Hrun; [|intros _; apply lookup_insert_eq].
        destruct Hrun as (Hm & Hsaved & Hsame). rewrite Hc1 in Hm.
        split; [auto|]. split; [exact Hsaved|].
        intros Hno. rewrite Hm in Hno by reflexivity. discriminate.
      * unfold io_ret at 1. intros Hrun.
        apply IH in Hrun; [|rewrite Hc1; discriminate].
        destruct Hrun as (Hm & Hsaved & Hsame).
        split; [|split; [exact Hsaved|]].
        -- intros Hc. specialize (Hmono Hc). congruence.
        -- intros Hno. destruct (Hsame Hno) as [-> ->].
           split; [now apply Hquiet|reflexivity].
    + destruct (tui_step_facts key v false v1 Hstep) as (_ & _ & Hquit & _).
      assert (key = KeyQuit) as -> by now apply Hquit.
      unfold tui_step in Hstep. injection Hstep as <-.
      intros [= <- <- <-]. simpl. auto.
Qed.

(** X20. The editor keeps the task list in order over any run of keys: when
    every task has an id, or a priority between 1 and 5, before the loop,
    this is so for the state the loop ends with; the [changed] flag, once
    set, stays set. *)
Theorem tui_loop_keeps (home : string) (json_dumps : State -> string)
    (keys : list tui_key) (v : Tui) (fs fs' : FS) (go : bool) (v' : Tui) :
  tui_loop home json_dumps keys v fs = (fs', inr (inr (go, v'))) ->
  (Forall (fun t => is_Some (task_id t)) (state_tasks (tui_state v)) ->
   Forall (fun t => is_Some (task_id t)) (state_tasks (tui_state v'))) /\
  (priorities_valid (state_tasks (tui_state v)) ->
   priorities_valid (state_tasks (tui_state v'))) /\
  (changed v = true -> changed v' = true).
Proof.
  revert v fs. induction keys as [|key rest IH]; intros v fs; simpl.
  - intros [= <- <- <-]. auto.
  - destruct (tui_step key v) as [e|[[|] v1]] eqn:Hstep; [discriminate| |].
    + destruct (tui_step_facts key v true v1 Hstep)
        as (_ & Hmono & _ & Hids & Hprio & _).
      assert (Hsave : exists fs1,
        (if changed v1 then save_state home json_dumps (tui_state v1)
         else io_ret ()) fs = (fs1, inr ())).
      { destruct (changed v1); eexists;
          [apply save_state_result|reflexivity]. }
      destruct Hsave as [fs1 Hsave]. unfold io_bind. rewrite Hsave.
      intros Hrun. apply IH in Hrun. destruct Hrun as (Hi & Hp & Hm).
      split; [|split]; intros H;
        [apply Hi, Hids, H|apply Hp, Hprio, H|apply Hm, Hmono, H].
    + destruct (tui_step_facts key v false v1 Hstep)
        as (_ & Hmono & _ & Hids & Hprio & _).
      intros [= <- <- <-]. auto.
Qed.

Lemma sample_keys_run :
  exists fs',
    tui_loop sample_home sample_dumps sample_keys (mkTui seeded_state 0 false)
             cluttered_fs =
    (fs',
     inr (inr (false,
       mkTui
         (mkState
            (Some [mkTask (Some "seed-quickstart") (Some "Part 6") (Some 1)
                          (Some false) (Some sample_created);
                   mkTask (Some "seed-manage")
                          (Some "Right click to edit or add") (Some 5)
                          (Some false) (Some sample_created);
                   mkTask (Some "a0b1c2d3e4") (Some "Tea") (Some 3)
                          (Some false) (Some sample_created)])
            (Some 0))
         1 true))).
Proof.
  unfold sample_keys. simpl tui_loop. unfold io_bind.
  unfold io_ret at 1. simpl tui_loop. rewrite !save_state_result.
  eexists. reflexivity.
Qed.

Lemma tui_loop_keeps_witness :
  priorities_valid
    [mkTask (Some "seed-quickstart") (Some "Part 6") (Some 1) (Some false)
            (Some sample_created);
     mkTask (Some "seed-manage") (Some "Right click to edit or add") (Some 5)
            (Some false) (Some sample_created);
     mkTask (Some "a0b1c2d3e4") (Some "Tea") (Some 3) (Some false)
            (Some sample_created)].
Proof.
  destruct sample_keys_run as [fs' Hrun].
  apply (tui_loop_keeps _ _ _ _ _ _ _ _ Hrun).
  repeat constructor; eexists; (split; [reflexivity|simpl; lia]).
Defined.

(** X21. The editor loses no change.  Whatever keys were pressed, when the
    loop stops or waits for the next key with [changed] set, the state file
    holds the state the editor has in memory; and with [changed] not set
    the state is the one the editor started with and no file was
    written. *)
Theorem tui_loop_autosave (home : string) (json_dumps : State -> string)
    (keys : list tui_key) (state : State) (idx : Z) (fs fs' : FS) (go : bool)
    (v' : Tui) :
  tui_loop home json_dumps keys (mkTui state idx false) fs
    = (fs', inr (inr (go, v'))) ->
  (changed v' = true ->
   files fs' !! DATA_FILE home = Some (json_dumps (tui_state v'))) /\
  (changed v' = false -> tui_state v' = state /\ fs' = fs).
Proof.
  intros Hrun.
  destruct (tui_loop_saved home json_dumps keys (mkTui state idx false)
              fs fs' go v') as (_ & Hsaved & Hsame);
    [discriminate|exact Hrun|].
  split; [exact Hsaved|exact Hsame].
Qed.

Lemma tui_loop_autosave_witness :
  exists fs' v',
    tui_loop sample_home sample_dumps sample_keys (mkTui seeded_state 0 false)
             cluttered_fs = (fs', inr (inr (false, v'))) /\
    files fs' !! DATA_FILE sample_home = Some (sample_dumps (tui_state v')).
Proof.
  destruct sample_keys_run as [fs' Hrun].
  eexists fs', _. split; [exact Hrun|].
  now apply (tui_loop_autosave _ _ _ _ _ _ _ _ _ Hrun).
Defined.

(** ** Ties in [sorted_tasks] *)

Lemma key_ltb_connex (a b : Key) :
  key_ltb a b = false -> key_ltb b a = false -> a = b.
Proof.
  key_cases; try congruence; try lia.
  all: match goal with
       | |- str_ltb ?x ?y = false -> str_ltb ?y ?x = false -> _ =>
           intros H1 H2; destruct (String.eqb_spec x y) as [->|Hne];
           [first [reflexivity|congruence]
           |rewrite (str_ltb_connex x y Hne H1) in H2; discriminate]
       end.
Qed.

Lemma same_key_rank (x y : Task) :
  negb (task_ltb x y) && negb (task_ltb y x) =
  bool_decide (sort_key y = sort_key x).
Proof.
  unfold task_ltb. case_bool_decide as Hk.
  - rewrite Hk.
    assert (Hirr : key_ltb (sort_key x) (sort_key x) = false).
    { destruct (key_ltb (sort_key x) (sort_key x)) eqn:E; [|reflexivity].
      now rewrite (key_ltb_asym _ _ E) in E. }
    now rewrite Hirr.
  - destruct (key_ltb (sort_key x) (sort_key y)) eqn:E1; [reflexivity|].
    destruct (key_ltb (sort_key y) (sort_key x)) eqn:E2; [reflexivity|].
    exfalso. apply Hk. symmetry. now apply key_ltb_connex.
Qed.

Lemma filter_none {A} (p : A -> bool) (l : list A) :
  (forall x, In x l -> p x = false) -> List.filter p l = [].
Proof.
  induction l as [|a r IH]; simpl; [reflexivity|]. intros Hall.
  rewrite (Hall a) by now left. apply IH. intros x Hx. apply Hall. now right.
Qed.

(** X22. [sorted_tasks] breaks no tie on its own: the tasks that agree on
    priority, creation time and title (with the defaults 3 and the empty
    string for a missing field) come out in the order the collection has
    them. *)
Theorem sorted_tasks_ties (ts : list Task) (k : Key) :
  List.filter (fun t => bool_decide (sort_key t = k)) (sorted_tasks ts) =
  List.filter (fun t => bool_decide (sort_key t = k)) ts.
Proof.
  destruct (List.filter (fun t => bool_decide (sort_key t = k)) ts)
    as [|x r] eqn:E.
  - apply filter_none. intros t Ht.
    apply (proj1 (sorted_tasks_In t ts)) in Ht.
    destruct (bool_decide (sort_key t = k)) eqn:Hk; [|reflexivity].
    assert (Hin : In t (List.filter (fun t => bool_decide (sort_key t = k)) ts))
      by (apply filter_In; split; [exact Ht|exact Hk]).
    rewrite E in Hin. destruct Hin.
  - assert (Hx : In x (List.filter (fun t => bool_decide (sort_key t = k)) ts))
      by (rewrite E; now left).
    apply filter_In in Hx. destruct Hx as [_ Hk].
    apply bool_decide_eq_true in Hk. subst k. rewrite <- E.
    rewrite !(List.filter_ext (fun t => bool_decide (sort_key t = sort_key x))
                (fun t => negb (task_ltb x t) && negb (task_ltb t x)))
      by (intros t; symmetry; apply same_key_rank).
    apply (sorted_stable task_ltb task_ltb_asym task_ltb_negtrans x ts).
Qed.
